(** * SessionBrowserContextFactory: a shallow embedding and its properties

    Source: [src/sessionBrowserContextFactory.ts].

    The class keeps a JavaScript [Map<string, ManagedSession>] and a fixed
    default session identifier.  Its methods are [async]: they run
    synchronously up to an [await] of an external call (the wrapped
    factory's [createContext], or a session's [close] callback), are
    suspended there, and resume with the outcome of that call.

    The embedding keeps that shape.  A method is a value of [prog A], a
    finite tree whose nodes are synchronous accesses to the factory state
    ([Sync]), reads of the clock ([NewDate]) and awaits of external calls
    ([Await], [AwaitAll]).  [run] executes a program with every await
    answered at once by the environment; [advance] and [resume] execute one
    synchronous segment at a time, which gives the interleavings of the
    JavaScript event loop.

    Conventions.
    - [BrowserContext], [CloseFn] and [Error] are opaque in the source; they
      are identified here by natural-number tokens.
    - A [Date] is its millisecond time stamp, in [Z]; [refCount] is a
      JavaScript number that only ever holds integers, in [Z].
    - The [Map] is an association list in insertion order, the order in which
      a JavaScript [Map] is iterated.
    - A session is a mutable object.  Every field write of the source
      ([session.refCount++], [session.refCount--],
      [session.lastAccessedAt = ...]) happens in the synchronous segment in
      which [session] was read from, or stored into, the map under
      [sessionId]; so the write is modelled as [assign sessionId f], an update
      of the entry held under that key.
    - [testDebug] writes to a diagnostic sink and has no effect on the
      factory; the calls are left out. *)

From Stdlib Require Import List String ZArith QArith Bool Lia.
From Stdlib Require Import DecimalString.
Import ListNotations.

Local Open Scope Z_scope.
Local Open Scope string_scope.

(* ------------------------------------------------------------------ *)
(** ** Data model *)

Definition BrowserContext := nat.
Definition CloseFn := nat.
Definition Error := nat.

Record ClientInfo : Type := mkClientInfo {
  name : string;
  version : string
}.

(** [interface ManagedSession] *)
Record ManagedSession : Type := mkSession {
  browserContext : BrowserContext;
  close : CloseFn;
  refCount : Z;
  sessionId : string;
  createdAt : Z;
  lastAccessedAt : Z
}.

Definition set_refCount (n : Z) (s : ManagedSession) : ManagedSession :=
  mkSession (browserContext s) (close s) n (sessionId s)
            (createdAt s) (lastAccessedAt s).

Definition set_lastAccessedAt (t : Z) (s : ManagedSession) : ManagedSession :=
  mkSession (browserContext s) (close s) (refCount s) (sessionId s)
            (createdAt s) t.

(** [Map<string, ManagedSession>], in insertion order. *)
Definition SessionMap := list (string * ManagedSession).

Fixpoint map_get (id : string) (m : SessionMap) : option ManagedSession :=
  match m with
  | [] => None
  | (k, v) :: m' => if String.eqb k id then Some v else map_get id m'
  end.

(** [Map.prototype.set]: an existing key keeps its position. *)
Fixpoint map_set (id : string) (s : ManagedSession) (m : SessionMap)
  : SessionMap :=
  match m with
  | [] => [(id, s)]
  | (k, v) :: m' =>
      if String.eqb k id then (k, s) :: m' else (k, v) :: map_set id s m'
  end.

Definition map_delete (id : string) (m : SessionMap) : SessionMap :=
  filter (fun kv => negb (String.eqb (fst kv) id)) m.

(** A field write on the session object that [map_get id] returns. *)
Fixpoint map_assign (id : string) (f : ManagedSession -> ManagedSession)
  (m : SessionMap) : SessionMap :=
  match m with
  | [] => []
  | (k, v) :: m' =>
      if String.eqb k id then (k, f v) :: m'
      else (k, v) :: map_assign id f m'
  end.

Definition map_keys (m : SessionMap) : list string := map fst m.
Definition map_values (m : SessionMap) : list ManagedSession := map snd m.

(** External calls the factory makes, as they appear in the call log. *)
Inductive ExtCall : Type :=
| CallCreateContext (clientInfo : ClientInfo)
| CallClose (c : CloseFn).

(** The factory object, the ['close'] listeners it has registered on browser
    contexts, and two logs: how many times the clock was read and which
    external calls were issued. *)
Record World : Type := mkWorld {
  _sessions : SessionMap;
  _defaultSessionId : string;
  listeners : list (BrowserContext * string);
  ticks : nat;
  calls : list ExtCall
}.

(** [constructor(wrappedFactory, defaultSessionId = 'default')] *)
Definition new_factory (defaultSessionId : option string) : World :=
  mkWorld []
          match defaultSessionId with Some d => d | None => "default" end
          [] 0 [].

Definition with_sessions (m : SessionMap) (w : World) : World :=
  mkWorld m (_defaultSessionId w) (listeners w) (ticks w) (calls w).

Definition with_listener (bc : BrowserContext) (id : string) (w : World)
  : World :=
  mkWorld (_sessions w) (_defaultSessionId w) (listeners w ++ [(bc, id)])
          (ticks w) (calls w).

Definition tick (w : World) : World :=
  mkWorld (_sessions w) (_defaultSessionId w) (listeners w) (S (ticks w))
          (calls w).

Definition log_calls (cs : list ExtCall) (w : World) : World :=
  mkWorld (_sessions w) (_defaultSessionId w) (listeners w) (ticks w)
          (calls w ++ cs).

(** The environment: the value of the n-th clock read, and the outcome of
    the external call issued as the n-th entry of the call log. *)
Record Env : Type := mkEnv {
  clock : nat -> Z;
  provision : nat -> ClientInfo -> (BrowserContext * CloseFn) + Error;
  teardown : nat -> CloseFn -> unit + Error
}.

(* ------------------------------------------------------------------ *)
(** ** Programs *)

Inductive call : Type -> Type :=
| WrappedCreateContext (clientInfo : ClientInfo)
    : call (BrowserContext * CloseFn)
| SessionClose (c : CloseFn) : call unit.

Definition erase {X} (c : call X) : ExtCall :=
  match c with
  | WrappedCreateContext ci => CallCreateContext ci
  | SessionClose f => CallClose f
  end.

Definition answer (env : Env) (n : nat) {X} (c : call X) : X + Error :=
  match c in call T return T + Error with
  | WrappedCreateContext ci => provision env n ci
  | SessionClose f => teardown env n f
  end.

(** The calls of a fan-out are issued in order; the i-th one is entry
    [n + i] of the call log. *)
Fixpoint answers (env : Env) (n : nat) {X} (cs : list (call X))
  : list (X + Error) :=
  match cs with
  | [] => []
  | c :: cs' => answer env n c :: answers env (S n) cs'
  end.

Inductive prog (A : Type) : Type :=
| Ret (a : A)
| Throw (e : Error)
| Sync {X : Type} (f : World -> X * World) (k : X -> prog A)
| NewDate (k : Z -> prog A)
| Await {X : Type} (c : call X) (k : X + Error -> prog A)
| AwaitAll {X : Type} (cs : list (call X)) (k : list (X + Error) -> prog A).

Arguments Ret {A} a.
Arguments Throw {A} e.
Arguments Sync {A X} f k.
Arguments NewDate {A} k.
Arguments Await {A X} c k.
Arguments AwaitAll {A X} cs k.

Fixpoint bind {A B} (p : prog A) (g : A -> prog B) : prog B :=
  match p with
  | Ret a => g a
  | Throw e => Throw e
  | Sync f k => Sync f (fun x => bind (k x) g)
  | NewDate k => NewDate (fun t => bind (k t) g)
  | Await c k => Await c (fun r => bind (k r) g)
  | AwaitAll cs k => AwaitAll cs (fun rs => bind (k rs) g)
  end.

(** [try { p } catch (error) { h error }] *)
Fixpoint try_catch {A} (p : prog A) (h : Error -> prog A) : prog A :=
  match p with
  | Ret a => Ret a
  | Throw e => h e
  | Sync f k => Sync f (fun x => try_catch (k x) h)
  | NewDate k => NewDate (fun t => try_catch (k t) h)
  | Await c k => Await c (fun r => try_catch (k r) h)
  | AwaitAll cs k => AwaitAll cs (fun rs => try_catch (k rs) h)
  end.

Declare Scope prog_scope.
Delimit Scope prog_scope with prog.
Notation "x <- p ;; q" := (bind p (fun x => q))
  (at level 100, p at next level, right associativity) : prog_scope.
Notation "p ;;; q" := (bind p (fun _ => q))
  (at level 100, right associativity) : prog_scope.
Local Open Scope prog_scope.

(** [await c]: a rejected promise is rethrown at the await. *)
Definition await {X} (c : call X) : prog X :=
  Await c (fun r => match r with inl x => Ret x | inr e => Throw e end).

Definition new_Date : prog Z := NewDate Ret.

Definition this_defaultSessionId : prog string :=
  Sync (fun w => (_defaultSessionId w, w)) Ret.

Definition sessions_get (id : string) : prog (option ManagedSession) :=
  Sync (fun w => (map_get id (_sessions w), w)) Ret.

Definition sessions_set (id : string) (s : ManagedSession) : prog unit :=
  Sync (fun w => (tt, with_sessions (map_set id s (_sessions w)) w)) Ret.

Definition sessions_delete (id : string) : prog unit :=
  Sync (fun w => (tt, with_sessions (map_delete id (_sessions w)) w)) Ret.

Definition sessions_clear : prog unit :=
  Sync (fun w => (tt, with_sessions [] w)) Ret.

Definition sessions_entries : prog (list (string * ManagedSession)) :=
  Sync (fun w => (_sessions w, w)) Ret.

Definition sessions_values : prog (list ManagedSession) :=
  Sync (fun w => (map_values (_sessions w), w)) Ret.

Definition assign (id : string) (f : ManagedSession -> ManagedSession)
  : prog unit :=
  Sync (fun w => (tt, with_sessions (map_assign id f (_sessions w)) w)) Ret.

(** [browserContext.on('close', () => this._sessions.delete(sessionId))] *)
Definition on_close (bc : BrowserContext) (id : string) : prog unit :=
  Sync (fun w => (tt, with_listener bc id w)) Ret.

(* ------------------------------------------------------------------ *)
(** ** Execution *)

(** Sequential execution: every await is answered as soon as it is reached. *)
Fixpoint run {A} (env : Env) (p : prog A) (w : World) : World * (A + Error) :=
  match p with
  | Ret a => (w, inl a)
  | Throw e => (w, inr e)
  | Sync f k => run env (k (fst (f w))) (snd (f w))
  | NewDate k => run env (k (clock env (ticks w))) (tick w)
  | Await c k =>
      run env (k (answer env (List.length (calls w)) c)) (log_calls [erase c] w)
  | AwaitAll cs k =>
      run env (k (answers env (List.length (calls w)) cs))
          (log_calls (map erase cs) w)
  end.

(** A suspended or finished invocation of an [async] method.  A pending
    invocation remembers the position of its call in the call log. *)
Inductive task (A : Type) : Type :=
| Finished (r : A + Error)
| Pending {X : Type} (n : nat) (c : call X) (k : X + Error -> prog A)
| PendingAll {X : Type} (n : nat) (cs : list (call X))
    (k : list (X + Error) -> prog A).

Arguments Finished {A} r.
Arguments Pending {A X} n c k.
Arguments PendingAll {A X} n cs k.

(** One synchronous segment: up to the next await, whose call is issued
    before the invocation is suspended, or to the end. *)
Fixpoint advance {A} (env : Env) (p : prog A) (w : World) : World * task A :=
  match p with
  | Ret a => (w, Finished (inl a))
  | Throw e => (w, Finished (inr e))
  | Sync f k => advance env (k (fst (f w))) (snd (f w))
  | NewDate k => advance env (k (clock env (ticks w))) (tick w)
  | Await c k => (log_calls [erase c] w, Pending (List.length (calls w)) c k)
  | AwaitAll cs k =>
      (log_calls (map erase cs) w, PendingAll (List.length (calls w)) cs k)
  end.

(** The awaited call settles and the invocation runs its next segment. *)
Definition resume {A} (env : Env) (t : task A) (w : World) : World * task A :=
  match t with
  | Finished r => (w, Finished r)
  | Pending n c k => advance env (k (answer env n c)) w
  | PendingAll n cs k => advance env (k (answers env n cs)) w
  end.

(** A listener [l], registered as [(context, sessionId)], is offered the
    ['close'] event of [bc]; if it is registered on [bc] its body
    [this._sessions.delete(sessionId)] runs. *)
Definition fire_listener (bc : BrowserContext) (w : World)
  (l : BrowserContext * string) : World :=
  if Nat.eqb (fst l) bc
  then with_sessions (map_delete (snd l) (_sessions w)) w
  else w.

(** The browser context [bc] emits ['close']: every listener registered on
    it runs, in registration order. *)
Definition emit_close (bc : BrowserContext) (w : World) : World :=
  fold_left (fire_listener bc) (listeners w) w.

(* ------------------------------------------------------------------ *)
(** ** The methods of [SessionBrowserContextFactory] *)

(** What [createContext] returns: the browser context and the closure
    [() => this._releaseSession(sessionId)]. *)
Record ContextHandle : Type := mkHandle {
  handle_browserContext : BrowserContext;
  handle_close : prog unit
}.

Definition _releaseSession (sessionId : string) : prog unit :=
  session <- sessions_get sessionId ;;
  match session with
  | None => Ret tt
  | Some _ => assign sessionId (fun s => set_refCount (refCount s - 1) s)
  end.

Definition createContext (clientInfo : ClientInfo) : prog ContextHandle :=
  sessionId <- this_defaultSessionId ;;
  found <- sessions_get sessionId ;;
  session <- match found with
             | Some session => Ret session
             | None =>
                 result <- await (WrappedCreateContext clientInfo) ;;
                 created <- new_Date ;;
                 accessed <- new_Date ;;
                 let session :=
                   mkSession (fst result) (snd result) 0 sessionId
                             created accessed in
                 sessions_set sessionId session ;;;
                 on_close (browserContext session) sessionId ;;;
                 Ret session
             end ;;
  assign sessionId (fun s => set_refCount (refCount s + 1) s) ;;;
  now <- new_Date ;;
  assign sessionId (set_lastAccessedAt now) ;;;
  Ret (mkHandle (browserContext session) (_releaseSession sessionId)).

Definition getOrCreateSession (sessionId : string) (clientInfo : ClientInfo)
  : prog BrowserContext :=
  found <- sessions_get sessionId ;;
  session <- match found with
             | Some session => Ret session
             | None =>
                 result <- await (WrappedCreateContext clientInfo) ;;
                 created <- new_Date ;;
                 accessed <- new_Date ;;
                 let session :=
                   mkSession (fst result) (snd result) 0 sessionId
                             created accessed in
                 sessions_set sessionId session ;;;
                 on_close (browserContext session) sessionId ;;;
                 Ret session
             end ;;
  assign sessionId (fun s => set_refCount (refCount s + 1) s) ;;;
  now <- new_Date ;;
  assign sessionId (set_lastAccessedAt now) ;;;
  Ret (browserContext session).

Definition closeSession (sessionId : string) : prog bool :=
  found <- sessions_get sessionId ;;
  match found with
  | None => Ret false
  | Some session =>
      sessions_delete sessionId ;;;
      try_catch
        (await (SessionClose (close session)) ;;; Ret true)
        (fun error => Ret false)
  end.

Definition listSessions : prog (list string) :=
  Sync (fun w => (map_keys (_sessions w), w)) Ret.

(** [Promise.all]: resolved when every promise is, rejected with the first
    rejection otherwise. *)
Fixpoint promise_all {X} (ps : list (X + Error)) : prog (list X) :=
  match ps with
  | [] => Ret []
  | inl x :: ps' => xs <- promise_all ps' ;; Ret (x :: xs)
  | inr e :: _ => Throw e
  end.

(** Each closure of [closeAllSessions] is
    [async (session) => { try { await session.close() } catch (error) {} }]:
    it calls [session.close()] at once, and its promise resolves whatever
    the outcome of that call. *)
Definition closure_outcome (r : unit + Error) : unit + Error :=
  match r with
  | inl u => inl u
  | inr error => inl tt
  end.

Definition closeAllSessions : prog unit :=
  values <- sessions_values ;;
  settled <- AwaitAll (map (fun session => SessionClose (close session)) values)
                      Ret ;;
  let closurePromises := map closure_outcome settled in
  promise_all closurePromises ;;;
  sessions_clear.

(** [(now - lastAccessedAt) / (1000 * 60)].  The source computes it on
    doubles; the comparison with a threshold of 0, the one the properties
    below are about, gives the same answer on rationals, since a non-zero
    difference of two time stamps divided by 60000 is not rounded to 0.
    The same holds for the default threshold 60.  For other thresholds the
    rounded quotient may compare differently (0.7 at 42000 ms); no property
    below says which sessions are selected at such a threshold. *)
Definition ageMinutes (now : Z) (session : ManagedSession) : Q :=
  (inject_Z (now - lastAccessedAt session) / inject_Z (1000 * 60))%Q.

Definition expired (now : Z) (maxAgeMinutes : Q) (session : ManagedSession)
  : bool :=
  (refCount session =? 0)%Z
  && negb (Qle_bool (ageMinutes now session) maxAgeMinutes).

Fixpoint for_each {X} (xs : list X) (body : X -> prog bool) : prog unit :=
  match xs with
  | [] => Ret tt
  | x :: xs' => body x ;;; for_each xs' body
  end.

Definition cleanupOldSessions (maxAgeMinutes : option Q) : prog nat :=
  let maxAgeMinutes :=
    match maxAgeMinutes with Some m => m | None => 60%Q end in
  now <- new_Date ;;
  entries <- sessions_entries ;;
  let sessionsToClose :=
    map fst (filter (fun e => expired now maxAgeMinutes (snd e)) entries) in
  for_each sessionsToClose closeSession ;;;
  Ret (List.length sessionsToClose).

(* ------------------------------------------------------------------ *)
(** ** Sequences of client operations on one identifier *)

(** What a client can do with the session of one identifier: acquire it
    through [createContext] (the identifier is then the default one) or
    through [getOrCreateSession], and release it through the closure that
    [createContext] returned. *)
Inductive client_op : Type :=
| OpCreateContext (clientInfo : ClientInfo)
| OpGetOrCreateSession (clientInfo : ClientInfo)
| OpRelease.

(** The factory together with the number of acquires that succeeded and the
    number of releases performed. *)
Record Observed : Type := mkObserved {
  world : World;
  acquires : Z;
  releases : Z
}.

Definition count_success {A} (r : A + Error) (n : Z) : Z :=
  match r with inl _ => n + 1 | inr _ => n end.

Definition perform (env : Env) (id : string) (o : client_op) (st : Observed)
  : Observed :=
  match o with
  | OpCreateContext ci =>
      let (w, r) := run env (createContext ci) (world st) in
      mkObserved w (count_success r (acquires st)) (releases st)
  | OpGetOrCreateSession ci =>
      let (w, r) := run env (getOrCreateSession id ci) (world st) in
      mkObserved w (count_success r (acquires st)) (releases st)
  | OpRelease =>
      let (w, _) := run env (_releaseSession id) (world st) in
      mkObserved w (acquires st) (releases st + 1)
  end.

Definition perform_all (env : Env) (id : string) (ops : list client_op)
  (st : Observed) : Observed :=
  fold_left (fun st o => perform env id o st) ops st.

Definition fresh (id : string) : Observed :=
  mkObserved (new_factory (Some id)) 0 0.

(** Every release answers an acquire that is still outstanding: when it is
    performed, fewer releases than successful acquires have been counted. *)
Fixpoint matched_from (env : Env) (id : string) (ops : list client_op)
  (st : Observed) : bool :=
  match ops with
  | [] => true
  | o :: ops' =>
      match o with
      | OpRelease => (releases st <? acquires st)%Z
      | _ => true
      end
      && matched_from env id ops' (perform env id o st)
  end.

Definition matched (env : Env) (id : string) (ops : list client_op) : bool :=
  matched_from env id ops (fresh id).

(** The reference count an observer reads for [id], if it has a session. *)
Definition observe (id : string) (st : Observed) : option Z :=
  option_map refCount (map_get id (_sessions (world st))).

(* ------------------------------------------------------------------ *)
(** ** Selection made by [cleanupOldSessions] *)

Definition selected_for_cleanup (now : Z) (maxAgeMinutes : Q) (m : SessionMap)
  : list string :=
  map fst (filter (fun e => expired now maxAgeMinutes (snd e)) m).

(* ------------------------------------------------------------------ *)
(** ** Acquiring a session *)

(** The two writes every acquire ends with. *)
Definition touch (t : Z) (s : ManagedSession) : ManagedSession :=
  set_lastAccessedAt t (set_refCount (refCount s + 1) s).

(** The world after a session was provisioned for [id] and acquired. *)
Definition provisioned (env : Env) (w : World) (id : string) (ci : ClientInfo)
  (bc : BrowserContext) (cl : CloseFn) : World :=
  mkWorld
    (map_assign id (touch (clock env (S (S (ticks w)))))
       (map_set id
          (mkSession bc cl 0 id (clock env (ticks w))
                     (clock env (S (ticks w))))
          (_sessions w)))
    (_defaultSessionId w)
    (listeners w ++ [(bc, id)])
    (S (S (S (ticks w))))
    (calls w ++ [CallCreateContext ci]).

(* ------------------------------------------------------------------ *)
(** ** Invocations in flight together *)

(** The methods are called one after the other; each runs its first
    synchronous segment before the next is called. *)
Fixpoint spawn_all {A} (env : Env) (ps : list (prog A)) (w : World)
  : World * list (task A) :=
  match ps with
  | [] => (w, [])
  | p :: ps' =>
      let (w1, t) := advance env p w in
      let (w2, ts) := spawn_all env ps' w1 in
      (w2, t :: ts)
  end.

(** The call awaited by the [i]-th invocation settles. *)
Fixpoint resume_at {A} (env : Env) (i : nat) (ts : list (task A)) (w : World)
  : World * list (task A) :=
  match ts, i with
  | [], _ => (w, [])
  | t :: ts', O => let (w', t') := resume env t w in (w', t' :: ts')
  | t :: ts', S i' =>
      let (w', ts'') := resume_at env i' ts' w in (w', t :: ts'')
  end.

(** The awaited calls settle in the order [schedule] gives. *)
Fixpoint run_schedule {A} (env : Env) (schedule : list nat)
  (ts : list (task A)) (w : World) : World * list (task A) :=
  match schedule with
  | [] => (w, ts)
  | i :: schedule' =>
      let (w', ts') := resume_at env i ts w in
      run_schedule env schedule' ts' w'
  end.

(** An environment in which the first provisioning call yields
    [(bc1, cl1)] and every later one [(bc2, cl2)]. *)
Definition two_provisions (clk : nat -> Z) (bc1 : BrowserContext)
  (cl1 : CloseFn) (bc2 : BrowserContext) (cl2 : CloseFn) : Env :=
  mkEnv clk
        (fun n _ => if Nat.eqb n 0 then inl (bc1, cl1) else inl (bc2, cl2))
        (fun _ _ => inl tt).

(* ------------------------------------------------------------------ *)
(** ** The statements that are compared with the code *)

(** The reference count of [id] is never negative and equals the successful
    acquires minus the releases, after every prefix of [ops]. *)
Definition refCount_tracks_all (env : Env) (id : string)
  (ops : list client_op) : Prop :=
  forall n,
    let st := perform_all env id (firstn n ops) (fresh id) in
    match observe id st with
    | Some rc => 0 <= rc /\ rc = acquires st - releases st
    | None => True
    end.

(** A release of a session whose count is 0 changes nothing. *)
Definition release_at_zero_is_noop (env : Env) (w : World) (id : string)
  : Prop :=
  forall s,
    map_get id (_sessions w) = Some s -> refCount s = 0 ->
    run env (_releaseSession id) w = (w, inl tt).

(** [cleanupOldSessions(0)] removes every session whose count is 0. *)
Definition cleanup_zero_removes_idle (env : Env) (w : World) : Prop :=
  forall id s,
    map_get id (_sessions w) = Some s -> refCount s = 0 ->
    map_get id (_sessions (fst (run env (cleanupOldSessions (Some 0%Q)) w)))
    = None.

(** Concrete inputs. *)
Definition a_client : ClientInfo := mkClientInfo "client" "1.0".

(** The clock always reads 5000; provisioning and teardown succeed. *)
Definition still_env : Env :=
  mkEnv (fun _ => 5000) (fun n _ => inl (n, n)) (fun _ _ => inl tt).

(** A factory whose default session was acquired once and released once. *)
Definition idle_default : World :=
  world (perform_all still_env "default"
           [OpCreateContext a_client; OpRelease] (fresh "default")).

(** The clock reads 9000; provisioning and teardown succeed. *)
Definition later_env : Env :=
  mkEnv (fun _ => 9000) (fun n _ => inl (n, n)) (fun _ _ => inl tt).

(** Every provisioning call fails with error 7. *)
Definition failing_env : Env :=
  mkEnv (fun _ => 5000) (fun _ _ => inr 7%nat) (fun _ _ => inl tt).

(** What holds between the operations of a sequence whose releases are all
    matched: the count is the balance, and the balance is not negative. *)
Definition balanced (id : string) (st : Observed) : Prop :=
  _defaultSessionId (world st) = id /\
  match observe id st with
  | Some rc => rc = acquires st - releases st /\ releases st <= acquires st
  | None => acquires st = 0 /\ releases st = 0
  end.

(** A JavaScript [Map] holds one entry per key. *)
Definition one_entry_per_key (w : World) : Prop :=
  NoDup (map_keys (_sessions w)).

(** [closeSession] for each identifier in turn leaves this map. *)
Definition delete_all (ids : list string) (m : SessionMap) : SessionMap :=
  fold_left (fun m' id => map_delete id m') ids m.

(* ------------------------------------------------------------------ *)
(** ** Introspection *)

(** What a browser context answers when it is queried: the URLs of its
    pages, in order ([pages()] and [url()]), and its browser ([browser()]),
    which may be null and otherwise has an [isConnected()] flag and a
    [browserType().name()]. *)
Record Probe : Type := mkProbe {
  pages : BrowserContext -> list string;
  browser : BrowserContext -> option (bool * string)
}.

(** The records [getSessionInfo] returns. *)
Record SessionInfo : Type := mkInfo {
  info_sessionId : string;
  info_refCount : Z;
  info_createdAt : Z;
  info_lastAccessedAt : Z;
  info_url : string;
  info_isActive : bool
}.

Definition session_info (probe : Probe) (entry : string * ManagedSession)
  : SessionInfo :=
  let (sessionId, session) := entry in
  mkInfo sessionId
         (refCount session)
         (createdAt session)
         (lastAccessedAt session)
         match pages probe (browserContext session) with
         | first :: _ => first
         | [] => "about:blank"
         end
         match browser probe (browserContext session) with
         | Some (isConnected, _) => isConnected
         | None => false
         end.

Definition getSessionInfo (probe : Probe) : prog (list SessionInfo) :=
  Sync (fun w => (map (session_info probe) (_sessions w), w)) Ret.

(* ------------------------------------------------------------------ *)
(** ** The public interface, call after call *)

(** The calls a user of the factory can make, each run to its end before the
    next, and the one event the environment can raise.  [ApiClose] is a call
    of a closure that [createContext] returned: each of them is
    [() => this._releaseSession(sessionId)] for the default identifier. *)
Inductive api_call : Type :=
| ApiCreateContext (clientInfo : ClientInfo)
| ApiClose
| ApiGetOrCreateSession (sessionId : string) (clientInfo : ClientInfo)
| ApiCloseSession (sessionId : string)
| ApiCloseAllSessions
| ApiCleanupOldSessions (maxAgeMinutes : option Q)
| ApiContextClosed (bc : BrowserContext).

Definition api_step (env : Env) (w : World) (c : api_call) : World :=
  match c with
  | ApiCreateContext ci => fst (run env (createContext ci) w)
  | ApiClose => fst (run env (_releaseSession (_defaultSessionId w)) w)
  | ApiGetOrCreateSession id ci => fst (run env (getOrCreateSession id ci) w)
  | ApiCloseSession id => fst (run env (closeSession id) w)
  | ApiCloseAllSessions => fst (run env closeAllSessions w)
  | ApiCleanupOldSessions m => fst (run env (cleanupOldSessions m) w)
  | ApiContextClosed bc => emit_close bc w
  end.

Definition api_run (env : Env) (cs : list api_call) (w : World) : World :=
  fold_left (api_step env) cs w.

(** Every session is stored under its own [sessionId], and a session under
    another identifier than the default one has at least one reference. *)
Definition named_sessions_held (w : World) : Prop :=
  forall k s,
    In (k, s) (_sessions w) ->
    sessionId s = k /\ (k <> _defaultSessionId w -> 1 <= refCount s).

(* ------------------------------------------------------------------ *)
(** ** The session tools ([src/tools/session.ts]) *)

(** A handler talks to its [response] through [addResult] and [addCode];
    the response is kept as the list of those calls. *)
Inductive ResponseCall : Type :=
| AddResult (text : string)
| AddCode (text : string).

Definition Response := list ResponseCall.

(** How a handler ends: it returns, or it throws [error]; in both cases the
    response holds what was added to it. *)
Definition Handled : Type := Response * (unit + Error).

(** Conversions to text that JavaScript provides and that are not spelled
    out here. *)
Record Builtins : Type := mkBuiltins {
  toISOString : Z -> string;
  JSON_stringify_info : list SessionInfo -> string;
  JSON_stringify_ids : list string -> string;
  String_of_error : Error -> string;
  String_of_number : Q -> string
}.

(** The decimal text of a length and of an integer count. *)
Definition show_nat (n : nat) : string :=
  NilEmpty.string_of_uint (Nat.to_uint n).

Definition show_Z (z : Z) : string :=
  NilZero.string_of_int (Z.to_int z).

Definition current_mark (sessionId currentSessionId : string) : string :=
  if String.eqb sessionId currentSessionId then " (CURRENT)" else EmptyString.

Definition info_lines (js : Builtins) (currentSessionId : string)
  (session : SessionInfo) : Response :=
  let current := current_mark (info_sessionId session) currentSessionId in
  [AddResult ("- " ++ info_sessionId session ++ current);
   AddResult ("  URL: " ++ info_url session);
   AddResult ("  Created: " ++ toISOString js (info_createdAt session));
   AddResult ("  Last Accessed: "
              ++ toISOString js (info_lastAccessedAt session));
   AddResult ("  References: " ++ show_Z (info_refCount session));
   AddResult ("  Status: "
              ++ if info_isActive session then "Active" else "Inactive");
   AddResult EmptyString].

(** [browser_session_info] *)
Definition sessionInfo_handle (js : Builtins) (probe : Probe)
  (response : Response) : prog Response :=
  sessionInfo <- getSessionInfo probe ;;
  let currentSessionId := "default" in
  let response :=
    (response
     ++ [AddResult "Current Browser Session Status:";
         AddResult ("Active Session ID: " ++ currentSessionId);
         AddResult ("Total Active Sessions: "
                    ++ show_nat (List.length sessionInfo));
         AddResult EmptyString])%list in
  let response :=
    match sessionInfo with
    | _ :: _ =>
        (response ++ [AddResult "Session Details:"]
         ++ flat_map (info_lines js currentSessionId) sessionInfo)%list
    | [] => (response ++ [AddResult "No active browser sessions found."])%list
    end in
  Ret (response
       ++ [AddCode "// Get session information";
           AddCode ("console.log('Browser sessions:', "
                    ++ JSON_stringify_info js sessionInfo ++ ");")])%list.

(** [browser_session_list] *)
Definition sessionList_handle (js : Builtins) (response : Response)
  : prog Response :=
  sessions <- listSessions ;;
  let currentSessionId := "default" in
  let response :=
    (response
     ++ [AddResult ("Active Browser Sessions ("
                    ++ show_nat (List.length sessions) ++ "):")])%list in
  let response :=
    match sessions with
    | _ :: _ =>
        (response
         ++ map (fun sessionId =>
                   AddResult ("- " ++ sessionId
                              ++ current_mark sessionId currentSessionId))
                sessions)%list
    | [] => (response ++ [AddResult "No active sessions found."])%list
    end in
  Ret (response
       ++ [AddCode "// List all sessions";
           AddCode ("const sessions = "
                    ++ JSON_stringify_ids js sessions ++ ";")])%list.

(** In the three handlers below the [try] block starts with the awaited
    factory call, the only step of the block that can throw; when the
    [catch] block runs nothing has been added to the response yet. *)

(** [browser_session_create] *)
Definition sessionCreate_handle (js : Builtins) (probe : Probe)
  (params_sessionId : string) (clientVersion : ClientInfo)
  (response : Response) : prog Handled :=
  try_catch
    (browserContext <- getOrCreateSession params_sessionId clientVersion ;;
     Ret ((response
           ++ [AddResult " Browser session created successfully!";
               AddResult ("Session ID: " ++ params_sessionId);
               AddResult ("Browser Context: "
                          ++ match browser probe browserContext with
                             | Some (_, name) => name
                             | None => "unknown"
                             end);
               AddResult ("Pages: "
                          ++ show_nat
                               (List.length (pages probe browserContext)));
               AddCode "// Create new browser session";
               AddCode ("const sessionId = '" ++ params_sessionId ++ "';");
               AddCode "console.log('Created session:', sessionId);"])%list,
          inl tt))
    (fun error =>
       Ret ((response
             ++ [AddResult (" Failed to create session: "
                            ++ String_of_error js error)])%list,
            inr error)).

(** [browser_session_close]; [params_force] is the optional [force]. *)
Definition sessionClose_handle (js : Builtins) (params_sessionId : string)
  (params_force : option bool) (response : Response) : prog Handled :=
  try_catch
    (success <- closeSession params_sessionId ;;
     let response :=
       if success
       then (response
             ++ [AddResult " Browser session closed successfully!";
                 AddResult ("Session ID: " ++ params_sessionId)])%list
       else (response
             ++ [AddResult (" Session not found or already closed: "
                            ++ params_sessionId)])%list in
     Ret ((response
           ++ [AddCode "// Close browser session";
               AddCode ("const sessionId = '" ++ params_sessionId ++ "';");
               AddCode "console.log('Closed session:', sessionId);"])%list,
          inl tt))
    (fun error =>
       Ret ((response
             ++ [AddResult (" Failed to close session: "
                            ++ String_of_error js error)])%list,
            inr error)).

(** [params.maxAgeMinutes || 60]: 0 is falsy. *)
Definition or_60 (maxAgeMinutes : Q) : Q :=
  if Qeq_bool maxAgeMinutes 0 then 60%Q else maxAgeMinutes.

(** [browser_session_cleanup]; the schema gives [maxAgeMinutes] the default
    60 when it is not supplied. *)
Definition sessionCleanup_handle (js : Builtins)
  (params_maxAgeMinutes : option Q) (response : Response) : prog Handled :=
  let maxAgeMinutes :=
    match params_maxAgeMinutes with Some m => m | None => 60%Q end in
  try_catch
    (cleanedCount <- cleanupOldSessions (Some (or_60 maxAgeMinutes)) ;;
     remainingSessions <- listSessions ;;
     let response :=
       (response
        ++ [AddResult " Session cleanup completed!";
            AddResult ("Sessions cleaned: " ++ show_nat cleanedCount);
            AddResult ("Max age: " ++ String_of_number js (or_60 maxAgeMinutes)
                       ++ " minutes");
            AddResult ("Remaining active sessions: "
                       ++ show_nat (List.length remainingSessions))])%list in
     let response :=
       match remainingSessions with
       | _ :: _ =>
           (response ++ [AddResult "Active sessions:"]
            ++ map (fun sessionId => AddResult ("- " ++ sessionId))
                   remainingSessions)%list
       | [] => response
       end in
     Ret ((response
           ++ [AddCode "// Cleanup old sessions";
               AddCode ("const cleanedCount = " ++ show_nat cleanedCount
                        ++ ";");
               AddCode "console.log('Cleaned up sessions:', cleanedCount);"]
          )%list,
          inl tt))
    (fun error =>
       Ret ((response
             ++ [AddResult (" Failed to cleanup sessions: "
                            ++ String_of_error js error)])%list,
            inr error)).

(** Concrete inputs for the tools. *)
Definition no_pages : Probe := mkProbe (fun _ => []) (fun _ => None).

Definition plain_js : Builtins :=
  mkBuiltins (fun _ => "date") (fun _ => "info") (fun _ => "ids")
             (fun _ => "error") (fun _ => "number").

(* ------------------------------------------------------------------ *)
(** ** Facts about the map *)

Section MapFacts.

Variables (id : string) (m : SessionMap).

Lemma map_get_set_same s : map_get id (map_set id s m) = Some s.
Proof.
  induction m as [|[k v] m' IH]; simpl.
  - now rewrite String.eqb_refl.
  - destruct (String.eqb k id) eqn:E; simpl; now rewrite E.
Qed.

Lemma map_get_set_other id' s :
  id' <> id -> map_get id' (map_set id s m) = map_get id' m.
Proof.
  intros Hne. induction m as [|[k v] m' IH]; simpl.
  - apply String.eqb_neq in Hne. rewrite String.eqb_sym. now rewrite Hne.
  - destruct (String.eqb k id) eqn:E; simpl.
    + apply String.eqb_eq in E; subst k.
      destruct (String.eqb id id') eqn:E'; [|reflexivity].
      apply String.eqb_eq in E'. congruence.
    + now rewrite IH.
Qed.

Lemma map_get_assign_same f :
  map_get id (map_assign id f m) = option_map f (map_get id m).
Proof.
  induction m as [|[k v] m' IH]; simpl; [reflexivity|].
  destruct (String.eqb k id) eqn:E; simpl; now rewrite E.
Qed.

Lemma map_get_assign_other id' f :
  id' <> id -> map_get id' (map_assign id f m) = map_get id' m.
Proof.
  intros Hne. induction m as [|[k v] m' IH]; simpl; [reflexivity|].
  destruct (String.eqb k id) eqn:E; simpl.
  - apply String.eqb_eq in E; subst k.
    destruct (String.eqb id id') eqn:E'; [|reflexivity].
    apply String.eqb_eq in E'. congruence.
  - now rewrite IH.
Qed.

Lemma map_assign_absent f :
  map_get id m = None -> map_assign id f m = m.
Proof.
  induction m as [|[k v] m' IH]; simpl; [reflexivity|].
  destruct (String.eqb k id); [discriminate|].
  intros H. now rewrite IH.
Qed.

Lemma map_keys_assign f : map_keys (map_assign id f m) = map_keys m.
Proof.
  induction m as [|[k v] m' IH]; simpl; [reflexivity|].
  destruct (String.eqb k id); simpl; [reflexivity|].
  now rewrite <- IH.
Qed.

Lemma map_get_delete_same : map_get id (map_delete id m) = None.
Proof.
  induction m as [|[k v] m' IH]; simpl; [reflexivity|].
  destruct (String.eqb k id) eqn:E; simpl; [assumption|].
  now rewrite E.
Qed.

Lemma map_get_delete_other id' :
  id' <> id -> map_get id' (map_delete id m) = map_get id' m.
Proof.
  intros Hne. induction m as [|[k v] m' IH]; simpl; [reflexivity|].
  destruct (String.eqb k id) eqn:E; simpl.
  - apply String.eqb_eq in E; subst k.
    destruct (String.eqb id id') eqn:E'; [|assumption].
    apply String.eqb_eq in E'. congruence.
  - now rewrite IH.
Qed.

Lemma map_delete_absent : map_get id m = None -> map_delete id m = m.
Proof.
  induction m as [|[k v] m' IH]; simpl; [reflexivity|].
  destruct (String.eqb k id); [discriminate|]; simpl.
  intros H. now rewrite IH.
Qed.

Lemma map_get_in s : map_get id m = Some s -> In (id, s) m.
Proof.
  induction m as [|[k v] m' IH]; simpl; [discriminate|].
  destruct (String.eqb k id) eqn:E.
  - apply String.eqb_eq in E. intros [= ->]. left. now subst.
  - intros H. right. now apply IH.
Qed.

Lemma map_get_none_keys : map_get id m = None <-> ~ In id (map_keys m).
Proof.
  induction m as [|[k v] m' IH]; simpl; [tauto|].
  destruct (String.eqb k id) eqn:E.
  - apply String.eqb_eq in E. split; [discriminate|]. intros H. tauto.
  - apply String.eqb_neq in E. tauto.
Qed.

Lemma map_in_get s :
  NoDup (map_keys m) -> In (id, s) m -> map_get id m = Some s.
Proof.
  induction m as [|[k v] m' IH]; simpl; [tauto|].
  intros Hnd [Heq|Hin].
  - injection Heq as -> ->. now rewrite String.eqb_refl.
  - inversion Hnd as [|? ? Hk Hnd']; subst.
    destruct (String.eqb k id) eqn:E; [|now apply IH].
    apply String.eqb_eq in E; subst k. exfalso. apply Hk.
    change id with (fst (id, s)). now apply in_map.
Qed.

End MapFacts.

(* ------------------------------------------------------------------ *)
(** ** What one run of each method does *)

Lemma map_assign_touch id t m :
  map_assign id (set_lastAccessedAt t)
    (map_assign id (fun s => set_refCount (refCount s + 1) s) m)
  = map_assign id (touch t) m.
Proof.
  induction m as [|[k v] m' IH]; simpl; [reflexivity|].
  destruct (String.eqb k id) eqn:E; simpl; rewrite E; [reflexivity|].
  now rewrite IH.
Qed.

Section Runs.

Variables (env : Env) (w : World).

Lemma run_release_absent id :
  map_get id (_sessions w) = None ->
  run env (_releaseSession id) w = (w, inl tt).
Proof.
  intros H. unfold _releaseSession. cbn. rewrite H. cbn.
  now destruct w.
Qed.

Lemma run_release_present id s :
  map_get id (_sessions w) = Some s ->
  run env (_releaseSession id) w
  = (with_sessions
       (map_assign id (fun s => set_refCount (refCount s - 1) s)
                   (_sessions w)) w,
     inl tt).
Proof.
  intros H. unfold _releaseSession. cbn. rewrite H. reflexivity.
Qed.

Lemma run_getOrCreateSession_existing id ci s :
  map_get id (_sessions w) = Some s ->
  run env (getOrCreateSession id ci) w
  = (tick (with_sessions
             (map_assign id (touch (clock env (ticks w))) (_sessions w)) w),
     inl (browserContext s)).
Proof.
  intros H. unfold getOrCreateSession. cbn. rewrite H. cbn.
  now rewrite map_assign_touch.
Qed.

Lemma run_createContext_existing ci s :
  map_get (_defaultSessionId w) (_sessions w) = Some s ->
  run env (createContext ci) w
  = (tick (with_sessions
             (map_assign (_defaultSessionId w)
                         (touch (clock env (ticks w))) (_sessions w)) w),
     inl (mkHandle (browserContext s)
                   (_releaseSession (_defaultSessionId w)))).
Proof.
  intros H. unfold createContext. cbn. rewrite H. cbn.
  now rewrite map_assign_touch.
Qed.

Lemma run_getOrCreateSession_fresh id ci bc cl :
  map_get id (_sessions w) = None ->
  provision env (List.length (calls w)) ci = inl (bc, cl) ->
  run env (getOrCreateSession id ci) w
  = (provisioned env w id ci bc cl, inl bc).
Proof.
  intros H P. unfold getOrCreateSession. cbn. rewrite H. cbn.
  rewrite P. cbn. now rewrite map_assign_touch.
Qed.

Lemma run_createContext_fresh ci bc cl :
  map_get (_defaultSessionId w) (_sessions w) = None ->
  provision env (List.length (calls w)) ci = inl (bc, cl) ->
  run env (createContext ci) w
  = (provisioned env w (_defaultSessionId w) ci bc cl,
     inl (mkHandle bc (_releaseSession (_defaultSessionId w)))).
Proof.
  intros H P. unfold createContext. cbn. rewrite H. cbn.
  rewrite P. cbn. now rewrite map_assign_touch.
Qed.

Lemma run_getOrCreateSession_failed id ci e :
  map_get id (_sessions w) = None ->
  provision env (List.length (calls w)) ci = inr e ->
  run env (getOrCreateSession id ci) w
  = (log_calls [CallCreateContext ci] w, inr e).
Proof.
  intros H P. unfold getOrCreateSession. cbn. rewrite H. cbn.
  now rewrite P.
Qed.

Lemma run_createContext_failed ci e :
  map_get (_defaultSessionId w) (_sessions w) = None ->
  provision env (List.length (calls w)) ci = inr e ->
  run env (createContext ci) w
  = (log_calls [CallCreateContext ci] w, inr e).
Proof.
  intros H P. unfold createContext. cbn. rewrite H. cbn.
  now rewrite P.
Qed.

Lemma provisioned_session id ci bc cl :
  map_get id (_sessions (provisioned env w id ci bc cl))
  = Some (mkSession bc cl 1 id (clock env (ticks w))
                    (clock env (S (S (ticks w))))).
Proof.
  unfold provisioned. cbn.
  now rewrite map_get_assign_same, map_get_set_same.
Qed.

Lemma provisioned_other id id' ci bc cl :
  id' <> id ->
  map_get id' (_sessions (provisioned env w id ci bc cl))
  = map_get id' (_sessions w).
Proof.
  intros Hne. unfold provisioned. cbn.
  now rewrite map_get_assign_other, map_get_set_other.
Qed.

Lemma run_closeSession_absent id :
  map_get id (_sessions w) = None ->
  run env (closeSession id) w = (w, inl false).
Proof.
  intros H. unfold closeSession. cbn. rewrite H. cbn. now destruct w.
Qed.

Lemma run_closeSession_present id s :
  map_get id (_sessions w) = Some s ->
  run env (closeSession id) w
  = (log_calls [CallClose (close s)]
       (with_sessions (map_delete id (_sessions w)) w),
     inl match teardown env (List.length (calls w)) (close s) with
         | inl _ => true
         | inr _ => false
         end).
Proof.
  intros H. unfold closeSession. cbn. rewrite H. cbn.
  now destruct (teardown env _ _).
Qed.

End Runs.

Lemma run_bind {A B} env (p : prog A) (g : A -> prog B) w :
  run env (bind p g) w
  = match run env p w with
    | (w', inl a) => run env (g a) w'
    | (w', inr e) => (w', inr e)
    end.
Proof.
  revert w. induction p as [a|e|X f k IH|k IH|X c k IH|X cs k IH];
    intros w; cbn; auto.
Qed.

(** Running to the end is advancing to the first await, answering it, and
    running on. *)
Lemma run_advance {A} env (p : prog A) w :
  run env p w
  = match advance env p w with
    | (w', Finished r) => (w', r)
    | (w', Pending n c k) => run env (k (answer env n c)) w'
    | (w', PendingAll n cs k) => run env (k (answers env n cs)) w'
    end.
Proof.
  revert w. induction p as [a|e|X f k IH|k IH|X c k IH|X cs k IH];
    intros w; cbn; auto.
Qed.

(* ------------------------------------------------------------------ *)
(** ** Acquiring an existing session *)

(** C10.  Acquiring a session that is already in the map, through
    [getOrCreateSession] or (for the default identifier) through
    [createContext], issues no external call, returns the browser context
    stored in that session, and changes nothing but the session's
    [refCount] (one more) and [lastAccessedAt] (the clock): its
    [browserContext], [close], [sessionId] and [createdAt], the listeners,
    the keys of the map and every other entry stay as they were. *)
Theorem acquire_existing_frame env w id ci s :
  map_get id (_sessions w) = Some s ->
  let acquired :=
    mkSession (browserContext s) (close s) (refCount s + 1) (sessionId s)
              (createdAt s) (clock env (ticks w)) in
  let frame (w' : World) :=
    calls w' = calls w /\
    listeners w' = listeners w /\
    _defaultSessionId w' = _defaultSessionId w /\
    map_keys (_sessions w') = map_keys (_sessions w) /\
    map_get id (_sessions w') = Some acquired /\
    (forall id', id' <> id ->
       map_get id' (_sessions w') = map_get id' (_sessions w)) in
  (exists w', run env (getOrCreateSession id ci) w
              = (w', inl (browserContext s)) /\ frame w') /\
  (id = _defaultSessionId w ->
   exists w', run env (createContext ci) w
              = (w', inl (mkHandle (browserContext s) (_releaseSession id)))
              /\ frame w').
Proof.
  intros H acquired frame.
  assert (F : frame (tick (with_sessions
             (map_assign id (touch (clock env (ticks w))) (_sessions w)) w))).
  { unfold frame; cbn. repeat split; auto.
    - apply map_keys_assign.
    - rewrite map_get_assign_same, H. reflexivity.
    - intros id' Hne. now apply map_get_assign_other. }
  split.
  - eexists. split; [now apply run_getOrCreateSession_existing | exact F].
  - intros ->. eexists. split; [now apply run_createContext_existing | exact F].
Qed.

(* ------------------------------------------------------------------ *)
(** ** Provisioning failure *)

(** C6.  When the identifier has no session and the call to the wrapped
    factory fails with [e], [getOrCreateSession] (and [createContext], for
    the default identifier) fails with that same [e]; the map, the
    listeners and the clock log are untouched, and exactly one provisioning
    call was issued: there is no second attempt. *)
Theorem provisioning_failure_propagates env w id ci e :
  map_get id (_sessions w) = None ->
  provision env (List.length (calls w)) ci = inr e ->
  let untouched (w' : World) :=
    _sessions w' = _sessions w /\
    listeners w' = listeners w /\
    ticks w' = ticks w /\
    calls w' = (calls w ++ [CallCreateContext ci])%list in
  (exists w', run env (getOrCreateSession id ci) w = (w', inr e)
              /\ untouched w') /\
  (id = _defaultSessionId w ->
   exists w', run env (createContext ci) w = (w', inr e) /\ untouched w').
Proof.
  intros H P untouched. split.
  - exists (log_calls [CallCreateContext ci] w). split.
    + now apply run_getOrCreateSession_failed.
    + unfold untouched; cbn; auto.
  - intros ->. exists (log_calls [CallCreateContext ci] w). split.
    + now apply run_createContext_failed.
    + unfold untouched; cbn; auto.
Qed.

(* ------------------------------------------------------------------ *)
(** ** Explicit close *)

(** C4.  [closeSession id] on an identifier without a session returns
    [false], raises nothing and leaves the world as it was.  On an
    identifier with a session [s], the first synchronous segment removes the
    entry and issues [s.close()]; the invocation is then suspended with [id]
    already absent from the map, so that an acquire of [id] made at that
    point goes to the wrapped factory instead of reusing [s].  When the
    teardown settles, in whatever world [w2] the factory is by then, the
    invocation finishes without touching the map again: with [true] if the
    teardown succeeded, and with [false], no error raised, if it failed. *)
Theorem closeSession_contract env w id :
  match map_get id (_sessions w) with
  | None =>
      run env (closeSession id) w = (w, inl false) /\
      advance env (closeSession id) w = (w, Finished (inl false))
  | Some s =>
      let w1 :=
        log_calls [CallClose (close s)]
          (with_sessions (map_delete id (_sessions w)) w) in
      exists k,
        advance env (closeSession id) w
        = (w1, Pending (List.length (calls w)) (SessionClose (close s)) k) /\
        map_get id (_sessions w1) = None /\
        (forall ci, exists k',
           advance env (getOrCreateSession id ci) w1
           = (log_calls [CallCreateContext ci] w1,
              Pending (List.length (calls w1)) (WrappedCreateContext ci) k'))
        /\
        (forall w2,
           advance env (k (inl tt)) w2 = (w2, Finished (inl true)) /\
           forall error,
             advance env (k (inr error)) w2 = (w2, Finished (inl false))) /\
        run env (closeSession id) w
        = (w1, inl match teardown env (List.length (calls w)) (close s) with
                   | inl _ => true
                   | inr _ => false
                   end)
  end.
Proof.
  destruct (map_get id (_sessions w)) as [s|] eqn:H.
  - intros w1.
    assert (G : map_get id (_sessions w1) = None)
      by (cbn; apply map_get_delete_same).
    unfold closeSession. cbn. rewrite H. cbn.
    eexists. split; [reflexivity|]. split; [exact G|]. split; [|split].
    + intros ci. unfold getOrCreateSession. cbn.
      cbn in G. rewrite G. cbn. eexists. reflexivity.
    + intros w2. split; [reflexivity|]. intros error. reflexivity.
    + now destruct (teardown env _ _).
  - split; [now apply run_closeSession_absent|].
    unfold closeSession. cbn. rewrite H. cbn. now destruct w.
Qed.

(* ------------------------------------------------------------------ *)
(** ** Release *)

(** A release of an identifier that has no session raises nothing and
    leaves the world as it was. *)
Lemma release_absent_is_noop env w id :
  map_get id (_sessions w) = None ->
  run env (_releaseSession id) w = (w, inl tt).
Proof. apply run_release_absent. Qed.

(** A release of a session decrements its count, whatever the count is. *)
Lemma release_decrements env w id s :
  map_get id (_sessions w) = Some s ->
  exists w',
    run env (_releaseSession id) w = (w', inl tt) /\
    map_get id (_sessions w') = Some (set_refCount (refCount s - 1) s).
Proof.
  intros H. eexists. split; [now apply (run_release_present env w id s)|].
  cbn. now rewrite map_get_assign_same, H.
Qed.

(** C2.  In [idle_default] the default session is in the map with
    [refCount] 0.  Releasing it once more raises nothing, but the map is not
    left unchanged: the session's [refCount] becomes -1. *)
Theorem release_at_zero_goes_negative :
  observe "default" (mkObserved idle_default 0 0) = Some 0 /\
  (exists w',
     run still_env (_releaseSession "default") idle_default = (w', inl tt) /\
     option_map refCount (map_get "default" (_sessions w')) = Some (-1) /\
     _sessions w' <> _sessions idle_default) /\
  ~ release_at_zero_is_noop still_env idle_default "default".
Proof.
  split; [reflexivity|]. split.
  - eexists. split; [reflexivity|]. split; [reflexivity|].
    cbv. discriminate.
  - intros C.
    specialize (C (mkSession 0%nat 0%nat 0 "default" 5000 5000)
                  eq_refl eq_refl).
    cbv in C. discriminate.
Qed.

(* ------------------------------------------------------------------ *)
(** ** Bulk teardown *)

Lemma promise_all_caught (rs : list (unit + Error)) :
  promise_all (map closure_outcome rs) = Ret (map (fun _ => tt) rs).
Proof.
  induction rs as [|r rs IH]; cbn; [reflexivity|].
  destruct r as [[]|e]; cbn; now rewrite IH.
Qed.

Lemma erase_session_closes (values : list ManagedSession) :
  map erase (map (fun session => SessionClose (close session)) values)
  = map (fun session => CallClose (close session)) values.
Proof. now rewrite map_map. Qed.

Lemma run_closeAllSessions env w :
  run env closeAllSessions w
  = (with_sessions []
       (log_calls (map (fun session => CallClose (close session))
                       (map_values (_sessions w))) w),
     inl tt).
Proof.
  unfold closeAllSessions. cbn. rewrite promise_all_caught. cbn.
  now rewrite erase_session_closes.
Qed.

(** C7.  [closeAllSessions] calls the [close] callback of every session in
    the map, in one synchronous segment, before any of them has settled, so
    no outcome can keep another teardown from being started.  Whatever the
    outcomes, failures included, the invocation then clears the map and
    returns without raising; with every await answered by the environment,
    the run ends with an empty map. *)
Theorem closeAllSessions_clears env w :
  let teardowns :=
    map (fun session => CallClose (close session))
        (map_values (_sessions w)) in
  (exists k,
     advance env closeAllSessions w
     = (log_calls teardowns w,
        PendingAll (List.length (calls w))
          (map (fun session => SessionClose (close session))
               (map_values (_sessions w))) k) /\
     forall (outcomes : list (unit + Error)) (w2 : World),
       advance env (k outcomes) w2
       = (with_sessions [] w2, Finished (inl tt))) /\
  (exists w',
     run env closeAllSessions w = (w', inl tt) /\
     _sessions w' = [] /\
     calls w' = (calls w ++ teardowns)%list).
Proof.
  intros teardowns. split.
  - unfold closeAllSessions. cbn.
    rewrite erase_session_closes. fold teardowns.
    eexists. split; [reflexivity|].
    intros outcomes w2. cbn. rewrite promise_all_caught. reflexivity.
  - eexists. split; [apply run_closeAllSessions|]. cbn. auto.
Qed.

(* ------------------------------------------------------------------ *)
(** ** Idle cleanup *)

Lemma expired_zero now s :
  expired now 0%Q s = true <-> refCount s = 0 /\ lastAccessedAt s < now.
Proof.
  unfold expired, ageMinutes, Qle_bool, Qdiv, Qmult, Qinv, inject_Z. cbn.
  rewrite andb_true_iff, negb_true_iff, Z.eqb_eq, Z.leb_gt. lia.
Qed.

Lemma map_get_delete_none id id' m :
  map_get id m = None -> map_get id (map_delete id' m) = None.
Proof.
  intros H. destruct (string_dec id id') as [->|Hne].
  - apply map_get_delete_same.
  - now rewrite map_get_delete_other.
Qed.

Lemma map_get_delete_all_none id ids : forall m,
  map_get id m = None -> map_get id (delete_all ids m) = None.
Proof.
  induction ids as [|i ids IH]; intros m H; cbn; [assumption|].
  apply IH. now apply map_get_delete_none.
Qed.

Lemma map_get_delete_all_in id ids : forall m,
  In id ids -> map_get id (delete_all ids m) = None.
Proof.
  induction ids as [|i ids IH]; intros m Hin; cbn; [destruct Hin|].
  destruct (string_dec i id) as [->|Hne].
  - apply map_get_delete_all_none, map_get_delete_same.
  - destruct Hin as [->|Hin]; [congruence|]. now apply IH.
Qed.

Lemma map_get_delete_all_out id ids : forall m,
  ~ In id ids -> map_get id (delete_all ids m) = map_get id m.
Proof.
  induction ids as [|i ids IH]; intros m Hout; cbn; [reflexivity|].
  rewrite IH by (intros Hin; apply Hout; now right).
  apply map_get_delete_other. intros ->. apply Hout. now left.
Qed.

Lemma selected_for_cleanup_in now q m id s :
  NoDup (map_keys m) ->
  map_get id m = Some s ->
  In id (selected_for_cleanup now q m) <-> expired now q s = true.
Proof.
  intros Hnd Hget. unfold selected_for_cleanup. rewrite in_map_iff. split.
  - intros [[k s'] [Hk Hin]]. cbn in Hk; subst k.
    apply filter_In in Hin as [Hin Hexp]. cbn in Hexp.
    apply (map_in_get id m s' Hnd) in Hin. congruence.
  - intros Hexp. exists (id, s). split; [reflexivity|].
    apply filter_In. split; [now apply map_get_in | exact Hexp].
Qed.

Lemma run_for_each_closeSession env ids : forall w,
  exists w',
    run env (for_each ids closeSession) w = (w', inl tt) /\
    _sessions w' = delete_all ids (_sessions w) /\
    _defaultSessionId w' = _defaultSessionId w /\
    listeners w' = listeners w /\
    ticks w' = ticks w.
Proof.
  induction ids as [|id ids IH]; intros w.
  - exists w. cbn. auto.
  - cbn [for_each]. rewrite run_bind.
    destruct (map_get id (_sessions w)) as [s|] eqn:H.
    + rewrite (run_closeSession_present env w id s H).
      destruct (IH (log_calls [CallClose (close s)]
                      (with_sessions (map_delete id (_sessions w)) w)))
        as (w' & R & S1 & S2 & S3 & S4).
      exists w'. rewrite R. cbn in *. auto.
    + rewrite (run_closeSession_absent env w id H).
      destruct (IH w) as (w' & R & S1 & S2 & S3 & S4).
      exists w'. rewrite R. cbn. rewrite (map_delete_absent id _ H). auto.
Qed.

Lemma run_cleanupOldSessions env w maxAgeMinutes :
  let q := match maxAgeMinutes with Some m => m | None => 60%Q end in
  let ids := selected_for_cleanup (clock env (ticks w)) q (_sessions w) in
  exists w',
    run env (cleanupOldSessions maxAgeMinutes) w
    = (w', inl (List.length ids)) /\
    _sessions w' = delete_all ids (_sessions w) /\
    _defaultSessionId w' = _defaultSessionId w /\
    listeners w' = listeners w.
Proof.
  intros q ids. unfold cleanupOldSessions. cbn.
  rewrite run_bind. fold q.
  fold (selected_for_cleanup (clock env (ticks w)) q (_sessions w)). fold ids.
  destruct (run_for_each_closeSession env ids (tick w))
    as (w' & R & S1 & S2 & S3 & S4).
  exists w'. rewrite R. cbn. auto.
Qed.

(** C3, as the code has it.  On a map with one entry per key,
    [cleanupOldSessions(0)] removes exactly the sessions whose [refCount] is
    0 and whose [lastAccessedAt] is strictly earlier than the time the call
    reads; every other session (a non-zero count, or accessed at that very
    time or later) stays in the map unchanged, and no identifier is added.
    It raises nothing and returns the number of sessions it selected,
    whatever the outcome of their teardowns. *)
Theorem cleanup_zero_removes_expired_idle env w :
  one_entry_per_key w ->
  let now := clock env (ticks w) in
  exists w',
    run env (cleanupOldSessions (Some 0%Q)) w
    = (w', inl (List.length
                  (filter (fun e => ((refCount (snd e) =? 0)
                                     && (lastAccessedAt (snd e) <? now))%Z)
                          (_sessions w)))) /\
    (forall id s,
       map_get id (_sessions w) = Some s ->
       refCount s = 0 -> lastAccessedAt s < now ->
       map_get id (_sessions w') = None) /\
    (forall id s,
       map_get id (_sessions w) = Some s ->
       refCount s <> 0 \/ now <= lastAccessedAt s ->
       map_get id (_sessions w') = Some s) /\
    (forall id,
       map_get id (_sessions w) = None -> map_get id (_sessions w') = None).
Proof.
  intros Hnd now.
  destruct (run_cleanupOldSessions env w (Some 0%Q)) as (w' & R & S1 & _).
  cbv beta zeta iota in R, S1.
  fold now in R, S1. exists w'. split; [|split; [|split]].
  - rewrite R. do 2 f_equal. unfold selected_for_cleanup.
    rewrite length_map. f_equal. apply filter_ext. intros e.
    destruct (expired now 0%Q (snd e)) eqn:E.
    + apply expired_zero in E as [E1 E2]. symmetry.
      apply andb_true_iff. split; [now apply Z.eqb_eq | now apply Z.ltb_lt].
    + symmetry. apply not_true_is_false. intros C.
      apply andb_true_iff in C as [C1 C2].
      apply Z.eqb_eq in C1. apply Z.ltb_lt in C2.
      assert (expired now 0%Q (snd e) = true) by now apply expired_zero.
      congruence.
  - intros id s Hget H0 Hlt. rewrite S1.
    apply map_get_delete_all_in.
    apply (selected_for_cleanup_in now 0%Q _ id s Hnd Hget).
    now apply expired_zero.
  - intros id s Hget Hkeep. rewrite S1.
    rewrite map_get_delete_all_out; [assumption|].
    intros Hin.
    apply (selected_for_cleanup_in now 0%Q _ id s Hnd Hget) in Hin.
    apply expired_zero in Hin. lia.
  - intros id Hget. rewrite S1. now apply map_get_delete_all_none.
Qed.

(** C3, as stated, fails: in [idle_default] the default session has
    [refCount] 0 and was last accessed at 5000, the time the clock still
    reads; [cleanupOldSessions(0)] selects nothing, returns 0 and leaves the
    session in the map. *)
Lemma cleanup_zero_keeps_just_accessed :
  run still_env (cleanupOldSessions (Some 0%Q)) idle_default
  = (tick idle_default, inl 0%nat) /\
  ~ cleanup_zero_removes_idle still_env idle_default.
Proof.
  split; [reflexivity|].
  intros C.
  specialize (C "default" (mkSession 0%nat 0%nat 0 "default" 5000 5000)
                eq_refl eq_refl).
  vm_compute in C. discriminate.
Qed.

(* ------------------------------------------------------------------ *)
(** ** Termination reported by the browser context *)

Section Listeners.

Variable bc : BrowserContext.

Lemma fire_listeners_frame ls : forall w,
  calls (fold_left (fire_listener bc) ls w) = calls w /\
  listeners (fold_left (fire_listener bc) ls w) = listeners w /\
  ticks (fold_left (fire_listener bc) ls w) = ticks w /\
  _defaultSessionId (fold_left (fire_listener bc) ls w) = _defaultSessionId w.
Proof.
  induction ls as [|l ls IH]; intros w; cbn; [auto|].
  destruct (IH (fire_listener bc w l)) as (H1 & H2 & H3 & H4).
  rewrite H1, H2, H3, H4. unfold fire_listener.
  destruct (Nat.eqb (fst l) bc); cbn; auto.
Qed.

Lemma fire_listeners_none id ls : forall w,
  map_get id (_sessions w) = None ->
  map_get id (_sessions (fold_left (fire_listener bc) ls w)) = None.
Proof.
  induction ls as [|l ls IH]; intros w H; cbn; [assumption|].
  apply IH. unfold fire_listener.
  destruct (Nat.eqb (fst l) bc); cbn; [|assumption].
  now apply map_get_delete_none.
Qed.

Lemma fire_listeners_in id ls : forall w,
  In (bc, id) ls ->
  map_get id (_sessions (fold_left (fire_listener bc) ls w)) = None.
Proof.
  induction ls as [|l ls IH]; intros w Hin; cbn; [destruct Hin|].
  destruct Hin as [->|Hin]; [|now apply IH].
  apply fire_listeners_none. unfold fire_listener. cbn.
  rewrite Nat.eqb_refl. cbn. apply map_get_delete_same.
Qed.

Lemma fire_listeners_out id ls : forall w,
  ~ In (bc, id) ls ->
  map_get id (_sessions (fold_left (fire_listener bc) ls w))
  = map_get id (_sessions w).
Proof.
  induction ls as [|[b i] ls IH]; intros w Hout; cbn; [reflexivity|].
  rewrite IH by (intros Hin; apply Hout; now right).
  unfold fire_listener. cbn.
  destruct (Nat.eqb b bc) eqn:E; cbn; [|reflexivity].
  apply Nat.eqb_eq in E; subst b.
  apply map_get_delete_other. intros ->. apply Hout. now left.
Qed.

End Listeners.

(** C8.  Creating a session for [id], through [getOrCreateSession] or
    through [createContext], registers a ['close'] listener for [id] on the
    browser context the wrapped factory returned.  Whenever that listener
    is registered and the context emits ['close'], the entry of [id] is
    gone from the map afterwards, no [close] callback or any other external
    call was made, identifiers without a listener on that context keep
    their entries, and the next acquire of [id] goes to the wrapped factory
    for a new context. *)
Theorem external_close_removes_entry env w id ci bc cl :
  map_get id (_sessions w) = None ->
  provision env (List.length (calls w)) ci = inl (bc, cl) ->
  let registered (w1 : World) :=
    map_get id (_sessions w1) <> None /\ In (bc, id) (listeners w1) in
  (exists w1,
     run env (getOrCreateSession id ci) w = (w1, inl bc) /\ registered w1) /\
  (id = _defaultSessionId w ->
   exists w1 h,
     run env (createContext ci) w = (w1, inl h) /\
     handle_browserContext h = bc /\ registered w1) /\
  (forall w2,
     In (bc, id) (listeners w2) ->
     map_get id (_sessions (emit_close bc w2)) = None /\
     calls (emit_close bc w2) = calls w2 /\
     (forall id', ~ In (bc, id') (listeners w2) ->
        map_get id' (_sessions (emit_close bc w2))
        = map_get id' (_sessions w2)) /\
     (forall ci', exists w3 r,
        run env (getOrCreateSession id ci') (emit_close bc w2) = (w3, r) /\
        calls w3 = (calls w2 ++ [CallCreateContext ci'])%list)).
Proof.
  intros H P registered.
  assert (R : registered (provisioned env w id ci bc cl)).
  { split.
    - rewrite provisioned_session. discriminate.
    - cbn. apply in_or_app. right. now left. }
  split; [|split].
  - exists (provisioned env w id ci bc cl).
    split; [now apply run_getOrCreateSession_fresh | exact R].
  - intros ->. exists (provisioned env w (_defaultSessionId w) ci bc cl).
    eexists. split; [now apply run_createContext_fresh|].
    split; [reflexivity|exact R].
  - intros w2 Hin. unfold emit_close.
    destruct (fire_listeners_frame bc (listeners w2) w2) as (C & _).
    assert (G : map_get id (_sessions
                  (fold_left (fire_listener bc) (listeners w2) w2)) = None)
      by now apply fire_listeners_in.
    split; [exact G|]. split; [exact C|]. split.
    + intros id' Hout. now apply fire_listeners_out.
    + intros ci'.
      set (w2' := fold_left (fire_listener bc) (listeners w2) w2) in *.
      destruct (provision env (List.length (calls w2')) ci')
        as [[bc' cl']|e] eqn:P'.
      * do 2 eexists. split.
        -- now apply (run_getOrCreateSession_fresh env w2' id ci' bc' cl').
        -- cbn. now rewrite C.
      * do 2 eexists. split.
        -- now apply (run_getOrCreateSession_failed env w2' id ci' e).
        -- cbn. now rewrite C.
Qed.

(* ------------------------------------------------------------------ *)
(** ** One entry per key *)

Lemma map_keys_set id s m :
  map_keys (map_set id s m)
  = match map_get id m with
    | Some _ => map_keys m
    | None => (map_keys m ++ [id])%list
    end.
Proof.
  unfold map_keys.
  induction m as [|[k v] m' IH]; cbn; [reflexivity|].
  destruct (String.eqb k id); cbn; [reflexivity|].
  rewrite IH. now destruct (map_get id m').
Qed.

Lemma map_set_nodup id s m :
  NoDup (map_keys m) -> NoDup (map_keys (map_set id s m)).
Proof.
  intros H. rewrite map_keys_set.
  destruct (map_get id m) eqn:G; [assumption|].
  apply map_get_none_keys in G.
  apply NoDup_app; [assumption | repeat constructor; intros [] |].
  intros x Hx [<-|[]]. contradiction.
Qed.

Lemma map_delete_nodup id m :
  NoDup (map_keys m) -> NoDup (map_keys (map_delete id m)).
Proof.
  induction m as [|[k v] m' IH]; cbn; [auto|].
  intros H. inversion H as [|? ? Hk Hnd]; subst.
  destruct (String.eqb k id); cbn; [now apply IH|].
  constructor; [|now apply IH].
  intros Hin. apply Hk. unfold map_keys, map_delete in *.
  apply in_map_iff in Hin as (e & <- & He).
  apply filter_In in He as [He _]. now apply in_map.
Qed.

Lemma delete_all_nodup ids : forall m,
  NoDup (map_keys m) -> NoDup (map_keys (delete_all ids m)).
Proof.
  induction ids as [|i ids IH]; intros m H; cbn; [assumption|].
  apply IH. now apply map_delete_nodup.
Qed.

Lemma fire_listeners_nodup bc ls : forall w,
  one_entry_per_key w ->
  one_entry_per_key (fold_left (fire_listener bc) ls w).
Proof.
  induction ls as [|l ls IH]; intros w H; cbn; [assumption|].
  apply IH. unfold fire_listener.
  destruct (Nat.eqb (fst l) bc); [|assumption].
  now apply map_delete_nodup.
Qed.

(** A new factory has one entry per key (none), and every method and every
    ['close'] event keeps it so. *)
Lemma one_entry_per_key_kept env w :
  one_entry_per_key w ->
  (forall ci, one_entry_per_key (fst (run env (createContext ci) w))) /\
  (forall id ci,
     one_entry_per_key (fst (run env (getOrCreateSession id ci) w))) /\
  (forall id, one_entry_per_key (fst (run env (_releaseSession id) w))) /\
  (forall id, one_entry_per_key (fst (run env (closeSession id) w))) /\
  one_entry_per_key (fst (run env closeAllSessions w)) /\
  (forall maxAgeMinutes,
     one_entry_per_key (fst (run env (cleanupOldSessions maxAgeMinutes) w)))
  /\
  (forall bc, one_entry_per_key (emit_close bc w)).
Proof.
  unfold one_entry_per_key. intros H.
  assert (Acq : forall id ci bc cl,
             NoDup (map_keys (_sessions (provisioned env w id ci bc cl)))).
  { intros id ci bc cl. cbn. rewrite map_keys_assign.
    now apply map_set_nodup. }
  repeat split.
  - intros ci.
    destruct (map_get (_defaultSessionId w) (_sessions w)) as [s|] eqn:G.
    + rewrite (run_createContext_existing env w ci s G). cbn.
      now rewrite map_keys_assign.
    + destruct (provision env (List.length (calls w)) ci)
        as [[bc cl]|e] eqn:P.
      * rewrite (run_createContext_fresh env w ci bc cl G P). apply Acq.
      * now rewrite (run_createContext_failed env w ci e G P).
  - intros id ci. destruct (map_get id (_sessions w)) as [s|] eqn:G.
    + rewrite (run_getOrCreateSession_existing env w id ci s G). cbn.
      now rewrite map_keys_assign.
    + destruct (provision env (List.length (calls w)) ci)
        as [[bc cl]|e] eqn:P.
      * rewrite (run_getOrCreateSession_fresh env w id ci bc cl G P).
        apply Acq.
      * now rewrite (run_getOrCreateSession_failed env w id ci e G P).
  - intros id. destruct (map_get id (_sessions w)) as [s|] eqn:G.
    + rewrite (run_release_present env w id s G). cbn.
      now rewrite map_keys_assign.
    + now rewrite (run_release_absent env w id G).
  - intros id. destruct (map_get id (_sessions w)) as [s|] eqn:G.
    + rewrite (run_closeSession_present env w id s G). cbn.
      now apply map_delete_nodup.
    + now rewrite (run_closeSession_absent env w id G).
  - rewrite run_closeAllSessions. cbn. constructor.
  - intros q. destruct (run_cleanupOldSessions env w q) as (w' & R & E & _).
    rewrite R. cbn. rewrite E. now apply delete_all_nodup.
  - intros bc. now apply fire_listeners_nodup.
Qed.

(* ------------------------------------------------------------------ *)
(** ** The default identifier *)

Lemma run_getOrCreateSession_cases env w id ci :
  exists w' r,
    run env (getOrCreateSession id ci) w = (w', r) /\
    _defaultSessionId w' = _defaultSessionId w /\
    (forall id', id' <> id ->
       map_get id' (_sessions w') = map_get id' (_sessions w)) /\
    (forall bc, r = inl bc ->
       exists s, map_get id (_sessions w') = Some s /\ browserContext s = bc).
Proof.
  destruct (map_get id (_sessions w)) as [s|] eqn:H.
  - do 2 eexists. split; [now apply (run_getOrCreateSession_existing env w id ci s)|].
    cbn. split; [reflexivity|]. split.
    + intros id' Hne. now apply map_get_assign_other.
    + intros bc [= <-]. rewrite map_get_assign_same, H. cbn. eauto.
  - destruct (provision env (List.length (calls w)) ci) as [[bc cl]|e] eqn:P.
    + do 2 eexists.
      split; [now apply (run_getOrCreateSession_fresh env w id ci bc cl)|].
      split; [reflexivity|]. split.
      * intros id' Hne. now apply provisioned_other.
      * intros bc' [= <-]. rewrite provisioned_session. eauto.
    + do 2 eexists.
      split; [now apply (run_getOrCreateSession_failed env w id ci e)|].
      cbn. split; [reflexivity|]. split; [reflexivity|]. discriminate.
Qed.

Lemma run_createContext_cases env w ci :
  let d := _defaultSessionId w in
  exists w' r,
    run env (createContext ci) w = (w', r) /\
    _defaultSessionId w' = d /\
    (forall id, id <> d ->
       map_get id (_sessions w') = map_get id (_sessions w)) /\
    match map_get d (_sessions w) with
    | Some s =>
        r = inl (mkHandle (browserContext s) (_releaseSession d)) /\
        calls w' = calls w /\
        forall ci', run env (createContext ci') w = (w', r)
    | None =>
        calls w' = (calls w ++ [CallCreateContext ci])%list /\
        match r with
        | inl h =>
            handle_close h = _releaseSession d /\
            exists s,
              map_get d (_sessions w') = Some s /\
              browserContext s = handle_browserContext h /\
              refCount s = 1
        | inr _ => _sessions w' = _sessions w
        end
    end.
Proof.
  intros d. subst d.
  destruct (map_get (_defaultSessionId w) (_sessions w)) as [s|] eqn:H.
  - do 2 eexists. split; [now apply (run_createContext_existing env w ci s)|].
    cbn. split; [reflexivity|]. split.
    + intros id Hne. now apply map_get_assign_other.
    + split; [reflexivity|]. split; [reflexivity|].
      intros ci'. now apply run_createContext_existing.
  - destruct (provision env (List.length (calls w)) ci) as [[bc cl]|e] eqn:P.
    + do 2 eexists.
      split; [now apply (run_createContext_fresh env w ci bc cl)|].
      split; [reflexivity|]. split.
      * intros id Hne. now apply provisioned_other.
      * split; [reflexivity|]. split; [reflexivity|].
        rewrite provisioned_session. eexists. split; [reflexivity|]. cbn. auto.
    + do 2 eexists.
      split; [now apply (run_createContext_failed env w ci e)|].
      cbn. auto.
Qed.

(** No method but the two acquiring ones puts an identifier into the map. *)
Lemma other_methods_add_nothing env w id :
  map_get id (_sessions w) = None ->
  (forall id',
     map_get id (_sessions (fst (run env (_releaseSession id') w))) = None) /\
  (forall id',
     map_get id (_sessions (fst (run env (closeSession id') w))) = None) /\
  map_get id (_sessions (fst (run env closeAllSessions w))) = None /\
  (forall maxAgeMinutes,
     map_get id (_sessions (fst (run env (cleanupOldSessions maxAgeMinutes) w)))
     = None).
Proof.
  intros H. split; [|split; [|split]].
  - intros id'. destruct (map_get id' (_sessions w)) as [s|] eqn:G.
    + rewrite (run_release_present env w id' s G). cbn.
      destruct (string_dec id id') as [->|Hne].
      * rewrite map_get_assign_same, H. reflexivity.
      * now rewrite map_get_assign_other.
    + now rewrite (run_release_absent env w id' G).
  - intros id'. destruct (map_get id' (_sessions w)) as [s|] eqn:G.
    + rewrite (run_closeSession_present env w id' s G). cbn.
      now apply map_get_delete_none.
    + now rewrite (run_closeSession_absent env w id' G).
  - now rewrite run_closeAllSessions.
  - intros q. destruct (run_cleanupOldSessions env w q) as (w' & R & E & _).
    rewrite R. cbn. rewrite E. now apply map_get_delete_all_none.
Qed.

(** C9.  The default identifier is ['default'] unless the constructor was
    given another one, and [createContext] never changes it.  Whatever
    [clientInfo] it is given, [createContext] acquires the session of the
    default identifier and reads and writes no other entry.  If that
    session exists, its [refCount] grows by one, its [lastAccessedAt] is
    set to the clock, and the result is the stored browser context with a
    closure releasing the default identifier; no external call is made, and
    neither the result nor the resulting world depends on [clientInfo].  If
    it does not exist, [clientInfo] is what the wrapped factory is called
    with, once: when that call succeeds with a context, the result is that
    context with the same closure, and the new session sits under the
    default identifier with [refCount] 1 and a ['close'] listener on the
    context; when it fails, the result is that failure and the map is as
    before.  An identifier other than the default one gets a session only
    from [getOrCreateSession], which acquires the session of the identifier
    it is given in the same way; no other method adds an identifier to the
    map. *)
Theorem createContext_targets_default :
  _defaultSessionId (new_factory None) = "default" /\
  (forall d, _defaultSessionId (new_factory (Some d)) = d) /\
  (forall env w ci,
     let d := _defaultSessionId w in
     exists w' r,
       run env (createContext ci) w = (w', r) /\
       _defaultSessionId w' = d /\
       (forall id, id <> d ->
          map_get id (_sessions w') = map_get id (_sessions w)) /\
       match map_get d (_sessions w) with
       | Some s =>
           r = inl (mkHandle (browserContext s) (_releaseSession d)) /\
           map_get d (_sessions w')
           = Some (mkSession (browserContext s) (close s) (refCount s + 1)
                             (sessionId s) (createdAt s)
                             (clock env (ticks w))) /\
           calls w' = calls w /\
           forall ci', run env (createContext ci') w = (w', r)
       | None =>
           calls w' = (calls w ++ [CallCreateContext ci])%list /\
           match provision env (List.length (calls w)) ci with
           | inl (bc, cl) =>
               r = inl (mkHandle bc (_releaseSession d)) /\
               map_get d (_sessions w')
               = Some (mkSession bc cl 1 d (clock env (ticks w))
                                 (clock env (S (S (ticks w))))) /\
               In (bc, d) (listeners w')
           | inr e => r = inr e /\ _sessions w' = _sessions w
           end
       end) /\
  (forall env w id ci,
     exists w' r,
       run env (getOrCreateSession id ci) w = (w', r) /\
       (forall id', id' <> id ->
          map_get id' (_sessions w') = map_get id' (_sessions w)) /\
       match map_get id (_sessions w) with
       | Some s =>
           r = inl (browserContext s) /\
           map_get id (_sessions w')
           = Some (mkSession (browserContext s) (close s) (refCount s + 1)
                             (sessionId s) (createdAt s)
                             (clock env (ticks w))) /\
           calls w' = calls w
       | None =>
           calls w' = (calls w ++ [CallCreateContext ci])%list /\
           match provision env (List.length (calls w)) ci with
           | inl (bc, cl) =>
               r = inl bc /\
               map_get id (_sessions w')
               = Some (mkSession bc cl 1 id (clock env (ticks w))
                                 (clock env (S (S (ticks w))))) /\
               In (bc, id) (listeners w')
           | inr e => r = inr e /\ _sessions w' = _sessions w
           end
       end)
  /\
  (forall env w id,
     map_get id (_sessions w) = None ->
     (forall id',
        map_get id (_sessions (fst (run env (_releaseSession id') w))) = None)
     /\
     (forall id',
        map_get id (_sessions (fst (run env (closeSession id') w))) = None)
     /\
     map_get id (_sessions (fst (run env closeAllSessions w))) = None /\
     (forall maxAgeMinutes,
        map_get id
          (_sessions (fst (run env (cleanupOldSessions maxAgeMinutes) w)))
        = None)).
Proof.
  split; [reflexivity|]. split; [reflexivity|]. split; [|split].
  - intros env w ci d. subst d.
    destruct (map_get (_defaultSessionId w) (_sessions w)) as [s|] eqn:H.
    + do 2 eexists.
      split; [now apply (run_createContext_existing env w ci s)|].
      cbn. split; [reflexivity|]. split.
      * intros id Hne. now apply map_get_assign_other.
      * split; [reflexivity|]. split.
        -- rewrite map_get_assign_same, H. reflexivity.
        -- split; [reflexivity|].
           intros ci'. now apply run_createContext_existing.
    + destruct (provision env (List.length (calls w)) ci)
        as [[bc cl]|e] eqn:P.
      * do 2 eexists.
        split; [now apply (run_createContext_fresh env w ci bc cl)|].
        split; [reflexivity|]. split.
        -- intros id Hne. now apply provisioned_other.
        -- split; [reflexivity|]. split; [reflexivity|]. split.
           ++ apply provisioned_session.
           ++ cbn. apply in_or_app. right. now left.
      * do 2 eexists.
        split; [now apply (run_createContext_failed env w ci e)|].
        cbn. auto.
  - intros env w id ci.
    destruct (map_get id (_sessions w)) as [s|] eqn:H.
    + do 2 eexists.
      split; [now apply (run_getOrCreateSession_existing env w id ci s)|].
      cbn. split.
      * intros id' Hne. now apply map_get_assign_other.
      * split; [reflexivity|]. split; [|reflexivity].
        rewrite map_get_assign_same, H. reflexivity.
    + destruct (provision env (List.length (calls w)) ci)
        as [[bc cl]|e] eqn:P.
      * do 2 eexists.
        split; [now apply (run_getOrCreateSession_fresh env w id ci bc cl)|].
        split.
        -- intros id' Hne. now apply provisioned_other.
        -- split; [reflexivity|]. split; [reflexivity|]. split.
           ++ apply provisioned_session.
           ++ cbn. apply in_or_app. right. now left.
      * do 2 eexists.
        split; [now apply (run_getOrCreateSession_failed env w id ci e)|].
        cbn. auto.
  - intros env w id. apply other_methods_add_nothing.
Qed.

(* ------------------------------------------------------------------ *)
(** ** Two first acquires in flight together *)

(** Two acquires one after the other share one session: one provisioning
    call, one entry, [refCount] 2. *)
Lemma consecutive_acquires_share clk ci bc1 cl1 bc2 cl2 :
  let env := two_provisions clk bc1 cl1 bc2 cl2 in
  let w1 := fst (run env (createContext ci) (new_factory None)) in
  let w2 := fst (run env (createContext ci) w1) in
  calls w2 = [CallCreateContext ci] /\
  _sessions w2
  = [("default", mkSession bc1 cl1 2 "default" (clk 0%nat) (clk 3%nat))].
Proof. cbn. split; reflexivity. Qed.

(** C5.  Two [createContext] calls are made on a new factory before the
    provisioning of either has settled.  Both find no session, so both call
    the wrapped factory: the call log holds two provisioning calls.  When
    the two calls settle, in either order, each invocation stores a session
    of its own under ['default'], the later one replacing the earlier: the
    map ends with one entry whose [refCount] is 1, not 2, and the browser
    context of the replaced session is in no entry any more. *)
Theorem concurrent_first_acquires_provision_twice clk ci bc1 cl1 bc2 cl2 :
  let env := two_provisions clk bc1 cl1 bc2 cl2 in
  let started :=
    spawn_all env [createContext ci; createContext ci] (new_factory None) in
  let release := _releaseSession "default" in
  calls (fst started) = [CallCreateContext ci; CallCreateContext ci] /\
  _sessions (fst started) = [] /\
  run_schedule env [0%nat; 1%nat] (snd started) (fst started)
  = (mkWorld
       [("default", mkSession bc2 cl2 1 "default" (clk 3%nat) (clk 5%nat))]
       "default" [(bc1, "default"); (bc2, "default")] 6
       [CallCreateContext ci; CallCreateContext ci],
     [Finished (inl (mkHandle bc1 release));
      Finished (inl (mkHandle bc2 release))]) /\
  run_schedule env [1%nat; 0%nat] (snd started) (fst started)
  = (mkWorld
       [("default", mkSession bc1 cl1 1 "default" (clk 3%nat) (clk 5%nat))]
       "default" [(bc2, "default"); (bc1, "default")] 6
       [CallCreateContext ci; CallCreateContext ci],
     [Finished (inl (mkHandle bc1 release));
      Finished (inl (mkHandle bc2 release))]).
Proof. cbn. repeat split; reflexivity. Qed.

(* ------------------------------------------------------------------ *)
(** ** The reference count along a sequence of operations *)

Section Counting.

Variables (env : Env) (id : string).

Lemma balanced_fresh : balanced id (fresh id).
Proof. unfold balanced, observe. cbn. auto. Qed.

Lemma balanced_acquired w a r (res : BrowserContext + Error) w' :
  balanced id (mkObserved w a r) ->
  _defaultSessionId w' = _defaultSessionId w ->
  (forall s, map_get id (_sessions w) = Some s ->
     map_get id (_sessions w') = Some (touch (clock env (ticks w)) s) /\
     exists bc, res = inl bc) ->
  (map_get id (_sessions w) = None ->
     (exists bc s, res = inl bc /\ map_get id (_sessions w') = Some s /\
                   refCount s = 1) \/
     (exists e, res = inr e /\ map_get id (_sessions w') = None)) ->
  balanced id (mkObserved w' (count_success res a) r).
Proof.
  unfold balanced, observe. cbn. intros [D B] D' Hsome Hnone.
  split; [congruence|].
  destruct (map_get id (_sessions w)) as [s|] eqn:G; cbn in B.
  - destruct (Hsome s eq_refl) as (-> & bc & ->). cbn. lia.
  - destruct (Hnone eq_refl) as [(bc & s & -> & -> & R)|(e & -> & ->)]; cbn.
    + lia.
    + lia.
Qed.

Lemma balanced_step o st :
  balanced id st ->
  (o = OpRelease -> releases st < acquires st) ->
  balanced id (perform env id o st).
Proof.
  destruct st as [w a r]. intros B M. pose proof B as [D _].
  cbn in D. destruct o as [ci|ci|]; cbn [perform world acquires releases].
  - destruct (run_createContext_cases env w ci)
      as (w' & res & R & D' & _ & C).
    rewrite R. rewrite D in *.
    apply (balanced_acquired w a r
             (match res with inl h => inl (handle_browserContext h)
                           | inr e => inr e end) w') in B.
    + destruct res; exact B.
    + congruence.
    + intros s G. rewrite G in C. destruct C as (-> & _ & _).
      rewrite (run_createContext_existing env w ci s) in R
        by (now rewrite D).
      injection R as <-. cbn. rewrite D, map_get_assign_same, G. eauto.
    + intros G. rewrite G in C. destruct C as (_ & C).
      destruct res as [h|e].
      * left. destruct C as (_ & s & Gs & _ & Rs). eauto.
      * right. exists e. split; [reflexivity|]. now rewrite C.
  - destruct (map_get id (_sessions w)) as [s|] eqn:G.
    + rewrite (run_getOrCreateSession_existing env w id ci s G).
      apply (balanced_acquired w a r (inl (browserContext s))); auto.
      * intros s' G'. rewrite G in G'. injection G' as <-.
        cbn. rewrite map_get_assign_same, G. eauto.
      * rewrite G. discriminate.
    + destruct (provision env (List.length (calls w)) ci)
        as [[bc cl]|e] eqn:P.
      * rewrite (run_getOrCreateSession_fresh env w id ci bc cl G P).
        apply (balanced_acquired w a r (inl bc)); auto.
        -- congruence.
        -- intros _. left. do 2 eexists. split; [reflexivity|].
           rewrite provisioned_session. split; reflexivity.
      * rewrite (run_getOrCreateSession_failed env w id ci e G P).
        apply (balanced_acquired w a r (inr e)); auto.
        -- congruence.
        -- intros _. right. exists e. cbn. auto.
  - specialize (M eq_refl). cbn in M.
    destruct B as [_ B]. unfold observe in B. cbn in B.
    destruct (map_get id (_sessions w)) as [s|] eqn:G; cbn in B; [|lia].
    rewrite (run_release_present env w id s G).
    unfold balanced, observe. cbn. split; [assumption|].
    rewrite map_get_assign_same, G. cbn. lia.
Qed.

Lemma balanced_prefix ops : forall st n,
  balanced id st ->
  matched_from env id ops st = true ->
  balanced id (perform_all env id (firstn n ops) st).
Proof.
  induction ops as [|o ops IH]; intros st n B M.
  - now destruct n.
  - destruct n as [|n]; [exact B|].
    cbn in M. apply andb_true_iff in M as [M1 M2].
    cbn. apply IH; [|exact M2].
    apply balanced_step; [exact B|].
    intros ->. now apply Z.ltb_lt.
Qed.

End Counting.

(** C1, as the code has it.  Take any sequence of acquires and releases on
    one identifier, starting from a new factory, in which every release
    answers an acquire that is still outstanding.  After every prefix of
    the sequence, if the identifier has a session its [refCount] is not
    negative and equals the number of successful acquires minus the number
    of releases; and it has no session only if there was no successful
    acquire and no release. *)
Theorem refCount_tracks_matched env id ops :
  matched env id ops = true ->
  forall n,
    let st := perform_all env id (firstn n ops) (fresh id) in
    match observe id st with
    | Some rc => 0 <= rc /\ rc = acquires st - releases st
    | None => acquires st = 0 /\ releases st = 0
    end.
Proof.
  intros M n st.
  assert (B : balanced id st)
    by (apply balanced_prefix; [apply balanced_fresh | exact M]).
  destruct B as [_ B]. destruct (observe id st); lia.
Qed.

(** C1, as stated, fails in two ways.  Acquire once and release twice: the
    session is in the map with [refCount] -1.  Release first, when there is
    no session yet, and then acquire: the count is 1, while one successful
    acquire minus one release is 0. *)
Lemma refCount_goes_negative :
  observe "default"
    (perform_all still_env "default"
       [OpCreateContext a_client; OpRelease; OpRelease] (fresh "default"))
  = Some (-1) /\
  ~ refCount_tracks_all still_env "default"
      [OpCreateContext a_client; OpRelease; OpRelease] /\
  observe "default"
    (perform_all still_env "default"
       [OpRelease; OpCreateContext a_client] (fresh "default"))
  = Some 1 /\
  ~ refCount_tracks_all still_env "default"
      [OpRelease; OpCreateContext a_client].
Proof.
  split; [reflexivity|]. split; [|split; [reflexivity|]].
  - intros C. specialize (C 3%nat). cbv in C. destruct C as [C _].
    now apply C.
  - intros C. specialize (C 2%nat). cbv in C. destruct C as [_ C].
    discriminate.
Qed.

(* ------------------------------------------------------------------ *)
(** ** Instances *)

Lemma refCount_tracks_matched_witness :
  matched still_env "default"
    [OpCreateContext a_client; OpGetOrCreateSession a_client;
     OpRelease; OpRelease] = true /\
  forall n,
    let st :=
      perform_all still_env "default"
        (firstn n [OpCreateContext a_client; OpGetOrCreateSession a_client;
                   OpRelease; OpRelease])
        (fresh "default") in
    match observe "default" st with
    | Some rc => 0 <= rc /\ rc = acquires st - releases st
    | None => acquires st = 0 /\ releases st = 0
    end.
Proof.
  split; [reflexivity|].
  apply (refCount_tracks_matched still_env "default"
           [OpCreateContext a_client; OpGetOrCreateSession a_client;
            OpRelease; OpRelease]).
  reflexivity.
Defined.

Lemma cleanup_zero_removes_expired_idle_witness :
  one_entry_per_key idle_default /\
  exists w',
    run later_env (cleanupOldSessions (Some 0%Q)) idle_default
    = (w', inl 1%nat) /\
    map_get "default" (_sessions w') = None.
Proof.
  assert (Hnd : one_entry_per_key idle_default)
    by (repeat constructor; cbn; tauto).
  split; [exact Hnd|].
  destruct (cleanup_zero_removes_expired_idle later_env idle_default Hnd)
    as (w' & R & Gone & _).
  exists w'. split; [exact R|].
  apply (Gone "default" (mkSession 0%nat 0%nat 0 "default" 5000 5000));
    reflexivity.
Defined.

Lemma provisioning_failure_propagates_witness :
  map_get "x" (_sessions (new_factory None)) = None /\
  provision failing_env (List.length (calls (new_factory None))) a_client
  = inr 7%nat /\
  exists w',
    run failing_env (getOrCreateSession "x" a_client) (new_factory None)
    = (w', inr 7%nat) /\
    _sessions w' = [] /\
    calls w' = [CallCreateContext a_client].
Proof.
  split; [reflexivity|]. split; [reflexivity|].
  destruct (provisioning_failure_propagates failing_env (new_factory None)
              "x" a_client 7%nat eq_refl eq_refl)
    as [(w' & R & S1 & _ & _ & C) _].
  exists w'. split; [exact R|]. split; [exact S1 | exact C].
Defined.

Lemma external_close_removes_entry_witness :
  map_get "x" (_sessions (new_factory None)) = None /\
  provision still_env (List.length (calls (new_factory None))) a_client
  = inl (0%nat, 0%nat) /\
  exists w1,
    run still_env (getOrCreateSession "x" a_client) (new_factory None)
    = (w1, inl 0%nat) /\
    In (0%nat, "x") (listeners w1) /\
    map_get "x" (_sessions (emit_close 0%nat w1)) = None /\
    calls (emit_close 0%nat w1) = calls w1.
Proof.
  split; [reflexivity|]. split; [reflexivity|].
  destruct (external_close_removes_entry still_env (new_factory None)
              "x" a_client 0%nat 0%nat eq_refl eq_refl)
    as ((w1 & R & _ & L) & _ & Fire).
  exists w1. split; [exact R|]. split; [exact L|].
  destruct (Fire w1 L) as (G & C & _). split; [exact G | exact C].
Defined.

Lemma acquire_existing_frame_witness :
  map_get "default" (_sessions idle_default)
  = Some (mkSession 0%nat 0%nat 0 "default" 5000 5000) /\
  exists w',
    run later_env (getOrCreateSession "default" a_client) idle_default
    = (w', inl 0%nat) /\
    calls w' = calls idle_default /\
    map_get "default" (_sessions w')
    = Some (mkSession 0%nat 0%nat 1 "default" 5000 9000).
Proof.
  split; [reflexivity|].
  destruct (acquire_existing_frame later_env idle_default "default" a_client
              (mkSession 0%nat 0%nat 0 "default" 5000 5000) eq_refl)
    as [(w' & R & C & _ & _ & _ & G & _) _].
  exists w'. split; [exact R|]. split; [exact C | exact G].
Defined.

(* ------------------------------------------------------------------ *)
(** ** Entries of the map under its operations *)

Lemma in_map_set k s id s' m :
  In (k, s) (map_set id s' m) -> In (k, s) m \/ (k = id /\ s = s').
Proof.
  induction m as [|[k0 v0] m' IH]; cbn.
  - intros [[= <- <-]|[]]. auto.
  - destruct (String.eqb k0 id) eqn:E; cbn.
    + apply String.eqb_eq in E; subst k0.
      intros [[= <- <-]|H]; auto.
    + intros [H|H]; [auto|]. destruct (IH H) as [H'|H']; auto.
Qed.

Lemma in_map_assign k s id f m :
  In (k, s) (map_assign id f m) ->
  exists s0, In (k, s0) m /\ (s = s0 \/ (k = id /\ s = f s0)).
Proof.
  induction m as [|[k0 v0] m' IH]; cbn; [intros []|].
  destruct (String.eqb k0 id) eqn:E; cbn.
  - apply String.eqb_eq in E; subst k0.
    intros [[= <- <-]|H]; [exists v0; auto | exists s; auto].
  - intros [[= <- <-]|H]; [exists v0; auto|].
    destruct (IH H) as (s0 & H0 & H1). exists s0. auto.
Qed.

Lemma map_assign_set_absent id f s m :
  map_get id m = None ->
  map_assign id f (map_set id s m) = (m ++ [(id, f s)])%list.
Proof.
  induction m as [|[k v] m' IH]; cbn.
  - intros _. now rewrite String.eqb_refl.
  - destruct (String.eqb k id) eqn:E; [discriminate|].
    intros G. cbn. rewrite E. now rewrite IH.
Qed.

Lemma in_map_delete e id m : In e (map_delete id m) -> In e m.
Proof. unfold map_delete. intros H. now apply filter_In in H. Qed.

Lemma in_delete_all e ids : forall m, In e (delete_all ids m) -> In e m.
Proof.
  induction ids as [|i ids IH]; intros m H; cbn in H; [assumption|].
  apply IH in H. now apply in_map_delete in H.
Qed.

Lemma in_fire_listeners e bc ls : forall w,
  In e (_sessions (fold_left (fire_listener bc) ls w)) -> In e (_sessions w).
Proof.
  induction ls as [|l ls IH]; intros w H; cbn in H; [assumption|].
  apply IH in H. unfold fire_listener in H.
  destruct (Nat.eqb (fst l) bc); [|assumption].
  cbn in H. now apply in_map_delete in H.
Qed.

Lemma selected_for_cleanup_idle now q m id :
  In id (selected_for_cleanup now q m) ->
  exists s, In (id, s) m /\ refCount s = 0.
Proof.
  unfold selected_for_cleanup. rewrite in_map_iff.
  intros [[k s] [Hk Hin]]. cbn in Hk; subst k.
  apply filter_In in Hin as [Hin Hexp]. cbn in Hexp.
  unfold expired in Hexp. apply andb_true_iff in Hexp as [H0 _].
  exists s. split; [assumption | now apply Z.eqb_eq].
Qed.

(* ------------------------------------------------------------------ *)
(** ** What the public interface keeps true *)

Section PublicInterface.

Variable env : Env.

Lemma held_subset w w' :
  named_sessions_held w ->
  _defaultSessionId w' = _defaultSessionId w ->
  (forall e, In e (_sessions w') -> In e (_sessions w)) ->
  named_sessions_held w'.
Proof.
  intros H D S k s Hin. rewrite D. apply H. now apply S.
Qed.

Lemma held_touched w id t :
  named_sessions_held w ->
  named_sessions_held
    (tick (with_sessions (map_assign id (touch t) (_sessions w)) w)).
Proof.
  intros H k s Hin. cbn in *.
  apply in_map_assign in Hin as (s0 & Hin & [->|[-> ->]]).
  - now apply H.
  - destruct (H _ _ Hin) as [H1 H2]. split; [exact H1|].
    intros Hne. specialize (H2 Hne). cbn. lia.
Qed.

Lemma held_provisioned w id ci bc cl :
  map_get id (_sessions w) = None ->
  named_sessions_held w ->
  named_sessions_held (provisioned env w id ci bc cl).
Proof.
  intros G H k s Hin. cbn in *.
  rewrite map_assign_set_absent in Hin by exact G.
  apply in_app_or in Hin as [Hin|[[= <- <-]|[]]].
  - now apply H.
  - cbn. split; [reflexivity|]. lia.
Qed.

Lemma held_step w c :
  named_sessions_held w ->
  named_sessions_held (api_step env w c) /\
  _defaultSessionId (api_step env w c) = _defaultSessionId w.
Proof.
  intros H. destruct c as [ci| |id ci|id| |m|bc]; cbn [api_step].
  - destruct (map_get (_defaultSessionId w) (_sessions w)) as [s|] eqn:G.
    + rewrite (run_createContext_existing env w ci s G). cbn.
      split; [now apply held_touched | reflexivity].
    + destruct (provision env (List.length (calls w)) ci)
        as [[bc cl]|e] eqn:P.
      * rewrite (run_createContext_fresh env w ci bc cl G P). cbn [fst].
        split; [now apply held_provisioned | reflexivity].
      * rewrite (run_createContext_failed env w ci e G P). cbn.
        split; [exact H | reflexivity].
  - destruct (map_get (_defaultSessionId w) (_sessions w)) as [s|] eqn:G.
    + rewrite (run_release_present env w _ s G). cbn.
      split; [|reflexivity]. intros k s' Hin. cbn in *.
      apply in_map_assign in Hin as (s0 & Hin & [->|[-> ->]]).
      * now apply H.
      * destruct (H _ _ Hin) as [H1 _]. split; [exact H1|]. congruence.
    + rewrite (run_release_absent env w _ G). cbn. auto.
  - destruct (map_get id (_sessions w)) as [s|] eqn:G.
    + rewrite (run_getOrCreateSession_existing env w id ci s G). cbn.
      split; [now apply held_touched | reflexivity].
    + destruct (provision env (List.length (calls w)) ci)
        as [[bc cl]|e] eqn:P.
      * rewrite (run_getOrCreateSession_fresh env w id ci bc cl G P).
        cbn [fst]. split; [now apply held_provisioned | reflexivity].
      * rewrite (run_getOrCreateSession_failed env w id ci e G P). cbn.
        split; [exact H | reflexivity].
  - destruct (map_get id (_sessions w)) as [s|] eqn:G.
    + rewrite (run_closeSession_present env w id s G). cbn.
      split; [|reflexivity].
      apply (held_subset w); [exact H | reflexivity |].
      intros e. cbn. apply in_map_delete.
    + rewrite (run_closeSession_absent env w id G). cbn. auto.
  - rewrite run_closeAllSessions. cbn. split; [|reflexivity].
    intros k s [].
  - destruct (run_cleanupOldSessions env w m) as (w' & R & E & D & _).
    rewrite R. cbn. split; [|exact D].
    apply (held_subset w); [exact H | exact D |].
    intros e. rewrite E. apply in_delete_all.
  - unfold emit_close.
    destruct (fire_listeners_frame bc (listeners w) w) as (_ & _ & _ & D).
    split; [|exact D].
    apply (held_subset w); [exact H | exact D |].
    intros e. apply in_fire_listeners.
Qed.

Lemma held_run cs : forall w,
  named_sessions_held w ->
  named_sessions_held (api_run env cs w) /\
  _defaultSessionId (api_run env cs w) = _defaultSessionId w.
Proof.
  unfold api_run.
  induction cs as [|c cs IH]; intros w H; cbn; [auto|].
  destruct (held_step w c H) as [H' D].
  destruct (IH _ H') as [H'' D']. split; [exact H''|congruence].
Qed.

End PublicInterface.

(** X1.  Start from a new factory and make any calls of the public
    interface, one after the other: [createContext], the closures it
    returned, [getOrCreateSession], [closeSession], [closeAllSessions],
    [cleanupOldSessions], with browser contexts closing at any point.  In
    the factory reached, every session is stored under its own [sessionId],
    and every session under an identifier other than the default one has
    [refCount] at least 1, since nothing in the interface releases it.
    Hence [cleanupOldSessions], whatever its threshold, leaves the entry of
    every identifier other than the default one exactly as it is. *)
Theorem named_sessions_survive_cleanup env defaultSessionId cs :
  let w := api_run env cs (new_factory defaultSessionId) in
  named_sessions_held w /\
  forall id maxAgeMinutes,
    id <> _defaultSessionId w ->
    map_get id
      (_sessions (fst (run env (cleanupOldSessions maxAgeMinutes) w)))
    = map_get id (_sessions w).
Proof.
  intros w.
  assert (H : named_sessions_held w).
  { apply held_run. intros k s []. }
  split; [exact H|]. intros id m Hne.
  destruct (run_cleanupOldSessions env w m) as (w' & R & E & _).
  rewrite R. cbn. rewrite E. apply map_get_delete_all_out.
  intros Hin. apply selected_for_cleanup_idle in Hin as (s & Hin & H0).
  destruct (H _ _ Hin) as [_ H1]. specialize (H1 Hne). lia.
Qed.

(* ------------------------------------------------------------------ *)
(** ** Acquire and release, close and release *)

(** X2.  [createContext] followed by a call of the closure it returned:
    the closure raises nothing and makes no external call, in particular
    no [close] callback is called although the count may have come back to
    0.  A session that was there before is left as it was but for its
    [lastAccessedAt]; a session that was provisioned by the acquire stays in
    the map with [refCount] 0.  Other identifiers are not touched. *)
Theorem acquire_then_release env w ci :
  let d := _defaultSessionId w in
  exists w1 r,
    run env (createContext ci) w = (w1, r) /\
    forall h, r = inl h ->
      exists w2,
        run env (handle_close h) w1 = (w2, inl tt) /\
        calls w2 = calls w1 /\
        (forall id, id <> d ->
           map_get id (_sessions w2) = map_get id (_sessions w)) /\
        match map_get d (_sessions w) with
        | Some s =>
            map_get d (_sessions w2)
            = Some (set_lastAccessedAt (clock env (ticks w)) s)
        | None =>
            exists s,
              map_get d (_sessions w2) = Some s /\
              browserContext s = handle_browserContext h /\
              refCount s = 0
        end.
Proof.
  intros d. subst d.
  destruct (map_get (_defaultSessionId w) (_sessions w)) as [s|] eqn:G.
  - do 2 eexists. split; [now apply (run_createContext_existing env w ci s)|].
    intros h [= <-]. cbn [handle_close].
    set (w1 := tick _).
    assert (G1 : map_get (_defaultSessionId w) (_sessions w1)
                 = Some (touch (clock env (ticks w)) s))
      by (cbn; now rewrite map_get_assign_same, G).
    eexists. split; [apply (run_release_present env w1 _ _ G1)|].
    cbn. split; [reflexivity|]. split.
    + intros id Hne. now rewrite !map_get_assign_other.
    + rewrite !map_get_assign_same, G. cbn. unfold set_lastAccessedAt,
        set_refCount. cbn. f_equal. f_equal. lia.
  - destruct (provision env (List.length (calls w)) ci) as [[bc cl]|e] eqn:P.
    + do 2 eexists.
      split; [now apply (run_createContext_fresh env w ci bc cl)|].
      intros h [= <-]. cbn [handle_close handle_browserContext].
      set (w1 := provisioned env w (_defaultSessionId w) ci bc cl).
      pose proof (provisioned_session env w (_defaultSessionId w) ci bc cl)
        as G1. fold w1 in G1.
      eexists. split; [apply (run_release_present env w1 _ _ G1)|].
      cbn -[w1]. split; [reflexivity|]. split.
      * intros id Hne. rewrite map_get_assign_other by exact Hne.
        now apply provisioned_other.
      * rewrite map_get_assign_same, G1. cbn. eauto.
    + do 2 eexists.
      split; [now apply (run_createContext_failed env w ci e)|].
      discriminate.
Qed.

(** X3.  A closure returned by [createContext] releases whatever session
    is stored under the default identifier when it is called.  Acquire a
    fresh default session, close it with [closeSession], acquire again (a
    second session is provisioned, with [refCount] 1), then call the
    closure of the first acquire: the second session is left with
    [refCount] 0 while its own acquirer has not released it. *)
Theorem stale_release_hits_successor env w ci ci' bc1 cl1 bc2 cl2 :
  let d := _defaultSessionId w in
  let n := List.length (calls w) in
  map_get d (_sessions w) = None ->
  provision env n ci = inl (bc1, cl1) ->
  provision env (S (S n)) ci' = inl (bc2, cl2) ->
  exists w1 h1 w2 closed w3 h2 w4,
    run env (createContext ci) w = (w1, inl h1) /\
    run env (closeSession d) w1 = (w2, inl closed) /\
    run env (createContext ci') w2 = (w3, inl h2) /\
    handle_browserContext h2 = bc2 /\
    option_map refCount (map_get d (_sessions w3)) = Some 1 /\
    run env (handle_close h1) w3 = (w4, inl tt) /\
    option_map browserContext (map_get d (_sessions w4)) = Some bc2 /\
    option_map refCount (map_get d (_sessions w4)) = Some 0.
Proof.
  intros d n G P1 P2. subst d n.
  set (w1 := provisioned env w (_defaultSessionId w) ci bc1 cl1).
  pose proof (provisioned_session env w (_defaultSessionId w) ci bc1 cl1)
    as G1. fold w1 in G1.
  set (w2 := log_calls [CallClose cl1]
               (with_sessions
                  (map_delete (_defaultSessionId w) (_sessions w1)) w1)).
  assert (G2 : map_get (_defaultSessionId w2) (_sessions w2) = None)
    by (cbn; apply map_get_delete_same).
  assert (P2' : provision env (List.length (calls w2)) ci' = inl (bc2, cl2)).
  { cbn. rewrite !length_app. cbn. now rewrite !Nat.add_1_r. }
  set (w3 := provisioned env w2 (_defaultSessionId w2) ci' bc2 cl2).
  pose proof (provisioned_session env w2 (_defaultSessionId w2) ci' bc2 cl2)
    as G3. fold w3 in G3.
  exists w1, (mkHandle bc1 (_releaseSession (_defaultSessionId w))).
  exists w2. eexists. exists w3.
  exists (mkHandle bc2 (_releaseSession (_defaultSessionId w2))).
  eexists. split; [now apply run_createContext_fresh|].
  split; [apply (run_closeSession_present env w1 _ _ G1)|].
  split; [now apply run_createContext_fresh|].
  split; [reflexivity|].
  split; [change (_defaultSessionId w) with (_defaultSessionId w2);
          now rewrite G3|].
  cbn [handle_close].
  split; [apply (run_release_present env w3 (_defaultSessionId w) _ G3)|].
  cbn -[w3]. change (_defaultSessionId w) with (_defaultSessionId w2).
  rewrite map_get_assign_same, G3. cbn. auto.
Qed.

Lemma stale_release_hits_successor_witness :
  map_get "default" (_sessions (new_factory None)) = None /\
  provision still_env 0 a_client = inl (0%nat, 0%nat) /\
  provision still_env 2 a_client = inl (2%nat, 2%nat) /\
  exists w1 h1 w2 closed w3 h2 w4,
    run still_env (createContext a_client) (new_factory None)
    = (w1, inl h1) /\
    run still_env (closeSession "default") w1 = (w2, inl closed) /\
    run still_env (createContext a_client) w2 = (w3, inl h2) /\
    handle_browserContext h2 = 2%nat /\
    option_map refCount (map_get "default" (_sessions w3)) = Some 1 /\
    run still_env (handle_close h1) w3 = (w4, inl tt) /\
    option_map browserContext (map_get "default" (_sessions w4))
    = Some 2%nat /\
    option_map refCount (map_get "default" (_sessions w4)) = Some 0.
Proof.
  split; [reflexivity|]. split; [reflexivity|]. split; [reflexivity|].
  exact (stale_release_hits_successor still_env (new_factory None)
           a_client a_client 0%nat 0%nat 2%nat 2%nat
           eq_refl eq_refl eq_refl).
Defined.

(** X4.  A ['close'] listener removes whatever session is stored under its
    identifier when the event arrives.  Create a session for [id], close it
    with [closeSession], create a session for [id] again on another browser
    context, and let the first browser context emit ['close']: the entry of
    the second session is removed, and its [close] callback has not been
    called. *)
Theorem stale_listener_drops_successor env w id ci ci' bc1 cl1 bc2 cl2 :
  let n := List.length (calls w) in
  map_get id (_sessions w) = None ->
  provision env n ci = inl (bc1, cl1) ->
  provision env (S (S n)) ci' = inl (bc2, cl2) ->
  exists w1 w2 closed w3,
    run env (getOrCreateSession id ci) w = (w1, inl bc1) /\
    run env (closeSession id) w1 = (w2, inl closed) /\
    run env (getOrCreateSession id ci') w2 = (w3, inl bc2) /\
    option_map close (map_get id (_sessions w3)) = Some cl2 /\
    map_get id (_sessions (emit_close bc1 w3)) = None /\
    calls (emit_close bc1 w3)
    = (calls w ++ [CallCreateContext ci; CallClose cl1;
                   CallCreateContext ci'])%list.
Proof.
  intros n G P1 P2. subst n.
  set (w1 := provisioned env w id ci bc1 cl1).
  pose proof (provisioned_session env w id ci bc1 cl1) as G1. fold w1 in G1.
  set (w2 := log_calls [CallClose cl1]
               (with_sessions (map_delete id (_sessions w1)) w1)).
  assert (G2 : map_get id (_sessions w2) = None)
    by (cbn; apply map_get_delete_same).
  assert (P2' : provision env (List.length (calls w2)) ci' = inl (bc2, cl2)).
  { cbn. rewrite !length_app. cbn. now rewrite !Nat.add_1_r. }
  set (w3 := provisioned env w2 id ci' bc2 cl2).
  pose proof (provisioned_session env w2 id ci' bc2 cl2) as G3.
  fold w3 in G3.
  exists w1, w2. eexists. exists w3.
  split; [now apply run_getOrCreateSession_fresh|].
  split; [apply (run_closeSession_present env w1 _ _ G1)|].
  split; [now apply run_getOrCreateSession_fresh|].
  split; [now rewrite G3|].
  unfold emit_close.
  destruct (fire_listeners_frame bc1 (listeners w3) w3) as (C & _).
  split.
  - apply fire_listeners_in. cbn.
    apply in_or_app. left. apply in_or_app. right. now left.
  - rewrite C. cbn. now rewrite <- !app_assoc.
Qed.

Lemma stale_listener_drops_successor_witness :
  map_get "x" (_sessions (new_factory None)) = None /\
  provision still_env 0 a_client = inl (0%nat, 0%nat) /\
  provision still_env 2 a_client = inl (2%nat, 2%nat) /\
  exists w1 w2 closed w3,
    run still_env (getOrCreateSession "x" a_client) (new_factory None)
    = (w1, inl 0%nat) /\
    run still_env (closeSession "x") w1 = (w2, inl closed) /\
    run still_env (getOrCreateSession "x" a_client) w2 = (w3, inl 2%nat) /\
    option_map close (map_get "x" (_sessions w3)) = Some 2%nat /\
    map_get "x" (_sessions (emit_close 0%nat w3)) = None /\
    calls (emit_close 0%nat w3)
    = [CallCreateContext a_client; CallClose 0%nat;
       CallCreateContext a_client].
Proof.
  split; [reflexivity|]. split; [reflexivity|]. split; [reflexivity|].
  exact (stale_listener_drops_successor still_env (new_factory None) "x"
           a_client a_client 0%nat 0%nat 2%nat 2%nat
           eq_refl eq_refl eq_refl).
Defined.

(* ------------------------------------------------------------------ *)
(** ** Enumeration *)

Lemma map_keys_delete id m :
  map_keys (map_delete id m)
  = filter (fun k => negb (String.eqb k id)) (map_keys m).
Proof.
  unfold map_keys, map_delete.
  induction m as [|[k v] m' IH]; cbn; [reflexivity|].
  destruct (String.eqb k id); cbn; now rewrite IH.
Qed.

Lemma map_keys_provisioned env w id ci bc cl :
  map_get id (_sessions w) = None ->
  map_keys (_sessions (provisioned env w id ci bc cl))
  = (map_keys (_sessions w) ++ [id])%list.
Proof.
  intros G. cbn. rewrite map_keys_assign, map_keys_set. now rewrite G.
Qed.

(** X5.  [listSessions] never changes the factory and lists the identifiers
    in the order in which they were first stored.  After
    [getOrCreateSession id]: if [id] had a session the list is as before;
    if it had none and provisioning succeeded, [id] is appended at the end;
    if provisioning failed the list is as before. *)
Theorem listSessions_after_getOrCreateSession env w id ci :
  run env listSessions w = (w, inl (map_keys (_sessions w))) /\
  exists w' r,
    run env (getOrCreateSession id ci) w = (w', r) /\
    snd (run env listSessions w')
    = inl match map_get id (_sessions w), r with
          | None, inl _ => (map_keys (_sessions w) ++ [id])%list
          | _, _ => map_keys (_sessions w)
          end.
Proof.
  split; [cbn; now destruct w|].
  destruct (map_get id (_sessions w)) as [s|] eqn:G.
  - do 2 eexists.
    split; [now apply (run_getOrCreateSession_existing env w id ci s)|].
    cbn. now rewrite map_keys_assign.
  - destruct (provision env (List.length (calls w)) ci) as [[bc cl]|e] eqn:P.
    + do 2 eexists.
      split; [now apply (run_getOrCreateSession_fresh env w id ci bc cl)|].
      cbn [run listSessions snd fst]. now rewrite map_keys_provisioned.
    + do 2 eexists.
      split; [now apply (run_getOrCreateSession_failed env w id ci e)|].
      reflexivity.
Qed.

(** X6.  [closeSession id] on a session that exists removes [id] from what
    [listSessions] returns and keeps the other identifiers in their order;
    it calls the session's [close] callback once.  A second
    [closeSession id] returns [false], changes nothing and calls no
    callback: the teardown of a session is not repeated. *)
Theorem closeSession_twice env w id s :
  map_get id (_sessions w) = Some s ->
  exists w1 closed,
    run env (closeSession id) w = (w1, inl closed) /\
    snd (run env listSessions w1)
    = inl (filter (fun k => negb (String.eqb k id)) (map_keys (_sessions w)))
    /\
    calls w1 = (calls w ++ [CallClose (close s)])%list /\
    run env (closeSession id) w1 = (w1, inl false).
Proof.
  intros G. do 2 eexists.
  split; [apply (run_closeSession_present env w id s G)|].
  split; [cbn; now rewrite map_keys_delete|].
  split; [reflexivity|].
  apply run_closeSession_absent. cbn. apply map_get_delete_same.
Qed.

Lemma closeSession_twice_witness :
  map_get "default" (_sessions idle_default)
  = Some (mkSession 0%nat 0%nat 0 "default" 5000 5000) /\
  exists w1 closed,
    run still_env (closeSession "default") idle_default = (w1, inl closed) /\
    snd (run still_env listSessions w1)
    = inl (filter (fun k => negb (String.eqb k "default"))
                  (map_keys (_sessions idle_default))) /\
    calls w1 = (calls idle_default ++ [CallClose 0%nat])%list /\
    run still_env (closeSession "default") w1 = (w1, inl false).
Proof.
  split; [reflexivity|].
  exact (closeSession_twice still_env idle_default "default"
           (mkSession 0%nat 0%nat 0 "default" 5000 5000) eq_refl).
Defined.

(** X7.  [getSessionInfo] never changes the factory.  It returns one record
    per session, in the order of [listSessions] and with the same
    identifiers; on a map with one entry per key, the record of an
    identifier carries the [refCount], [createdAt] and [lastAccessedAt] of
    the session stored under it, the URL of the first page of its browser
    context, or ['about:blank'] when the context has no page, and as
    [isActive] the connection flag of its browser, or [false] when the
    context has no browser. *)
Theorem getSessionInfo_reports env probe w :
  one_entry_per_key w ->
  exists infos,
    run env (getSessionInfo probe) w = (w, inl infos) /\
    map info_sessionId infos = map_keys (_sessions w) /\
    forall info,
      In info infos ->
      exists s,
        map_get (info_sessionId info) (_sessions w) = Some s /\
        info_refCount info = refCount s /\
        info_createdAt info = createdAt s /\
        info_lastAccessedAt info = lastAccessedAt s /\
        info_url info = hd "about:blank" (pages probe (browserContext s)) /\
        info_isActive info
        = match browser probe (browserContext s) with
          | Some (isConnected, _) => isConnected
          | None => false
          end.
Proof.
  intros Hnd. eexists. split; [cbn; now destruct w|]. split.
  - unfold map_keys. rewrite map_map. apply map_ext. now intros [k s].
  - intros info Hin. apply in_map_iff in Hin as ([k s] & <- & Hin).
    exists s. cbn. split; [now apply map_in_get|].
    repeat split; now destruct (pages probe (browserContext s)).
Qed.

Lemma getSessionInfo_reports_witness :
  one_entry_per_key idle_default /\
  exists infos,
    run still_env (getSessionInfo no_pages) idle_default
    = (idle_default, inl infos) /\
    map info_sessionId infos = ["default"].
Proof.
  assert (Hnd : one_entry_per_key idle_default)
    by (repeat constructor; cbn; tauto).
  split; [exact Hnd|].
  destruct (getSessionInfo_reports still_env no_pages idle_default Hnd)
    as (infos & R & K & _).
  exists infos. split; [exact R | exact K].
Defined.

(* ------------------------------------------------------------------ *)
(** ** Idle cleanup at any threshold *)

Lemma filter_filter {X} (f g : X -> bool) (l : list X) :
  filter f (filter g l) = filter (fun x => g x && f x) l.
Proof.
  induction l as [|x l IH]; cbn; [reflexivity|].
  destruct (g x); cbn; [destruct (f x)|]; now rewrite IH.
Qed.

Lemma delete_all_filter ids : forall m,
  delete_all ids m
  = filter (fun e => negb (existsb (String.eqb (fst e)) ids)) m.
Proof.
  induction ids as [|i ids IH]; intros m; cbn.
  - symmetry. apply forallb_filter_id. now apply forallb_forall.
  - rewrite IH. unfold map_delete. rewrite filter_filter.
    apply filter_ext. intros e.
    destruct (String.eqb (fst e) i); reflexivity.
Qed.

Lemma selected_for_cleanup_mem now q m e :
  NoDup (map_keys m) -> In e m ->
  existsb (String.eqb (fst e)) (selected_for_cleanup now q m)
  = expired now q (snd e).
Proof.
  intros Hnd Hin. destruct e as [k s]. cbn.
  pose proof (map_in_get k m s Hnd Hin) as G.
  destruct (expired now q s) eqn:E.
  - apply existsb_exists. exists k. split; [|apply String.eqb_refl].
    now apply (selected_for_cleanup_in now q m k s Hnd G).
  - apply not_true_is_false. intros C.
    apply existsb_exists in C as (k' & Hk' & Heq).
    apply String.eqb_eq in Heq; subst k'.
    apply (selected_for_cleanup_in now q m k s Hnd G) in Hk'. congruence.
Qed.

Lemma filter_nodup_keys (f : string * ManagedSession -> bool) m :
  NoDup (map_keys m) -> NoDup (map_keys (filter f m)).
Proof.
  unfold map_keys. induction m as [|e m' IH]; cbn; [auto|].
  intros H. inversion H as [|? ? Hk Hnd]; subst.
  destruct (f e); cbn; [|now apply IH].
  constructor; [|now apply IH].
  intros Hin. apply Hk. apply in_map_iff in Hin as (e' & <- & He').
  apply filter_In in He' as [He' _]. now apply in_map.
Qed.

Lemma run_for_each_closeSession_calls env es : forall w,
  NoDup (map fst es) ->
  (forall k s, In (k, s) es -> map_get k (_sessions w) = Some s) ->
  calls (fst (run env (for_each (map fst es) closeSession) w))
  = (calls w ++ map (fun e => CallClose (close (snd e))) es)%list.
Proof.
  induction es as [|[k s] es IH]; intros w Hnd Hget; cbn [map for_each fst].
  - cbn. now rewrite app_nil_r.
  - rewrite run_bind.
    rewrite (run_closeSession_present env w k s) by (apply Hget; now left).
    inversion Hnd as [|? ? Hk Hnd']; subst.
    rewrite IH; [cbn; now rewrite <- app_assoc | exact Hnd' |].
    intros k' s' Hin. cbn.
    rewrite map_get_delete_other; [apply Hget; now right|].
    intros ->. apply Hk. change k with (fst (k, s')). now apply in_map.
Qed.

(** What a run of [cleanupOldSessions] leaves, in terms of the selection
    [expired] makes; used below at the thresholds 0 and 60, where [expired]
    decides as the source does. *)
Lemma run_cleanupOldSessions_selected env w maxAgeMinutes :
  one_entry_per_key w ->
  let q := match maxAgeMinutes with Some m => m | None => 60%Q end in
  let now := clock env (ticks w) in
  let chosen := filter (fun e => expired now q (snd e)) (_sessions w) in
  exists w',
    run env (cleanupOldSessions maxAgeMinutes) w
    = (w', inl (List.length chosen)) /\
    _sessions w'
    = filter (fun e => negb (expired now q (snd e))) (_sessions w) /\
    calls w'
    = (calls w ++ map (fun e => CallClose (close (snd e))) chosen)%list /\
    listeners w' = listeners w /\
    (forall e, In e chosen -> refCount (snd e) = 0) /\
    (forall id s,
       map_get id (_sessions w) = Some s -> refCount s <> 0 ->
       map_get id (_sessions w') = Some s).
Proof.
  intros Hnd q now chosen.
  destruct (run_cleanupOldSessions env w maxAgeMinutes)
    as (w' & R & E & _ & L).
  cbv zeta in R, E. fold q now in R, E.
  assert (Ids : selected_for_cleanup now q (_sessions w) = map fst chosen)
    by reflexivity.
  assert (Kept : _sessions w'
                 = filter (fun e => negb (expired now q (snd e)))
                          (_sessions w)).
  { rewrite E, delete_all_filter. apply filter_ext_in. intros e Hin.
    now rewrite (selected_for_cleanup_mem now q _ e Hnd Hin). }
  assert (Idle : forall e, In e chosen -> refCount (snd e) = 0).
  { intros e Hin. apply filter_In in Hin as [_ Hexp].
    unfold expired in Hexp. apply andb_true_iff in Hexp as [H0 _].
    now apply Z.eqb_eq. }
  exists w'. split; [|split; [exact Kept|split; [|split; [exact L|split]]]].
  - rewrite R, Ids. now rewrite length_map.
  - assert (Rw : w' = fst (run env (cleanupOldSessions maxAgeMinutes) w))
      by now rewrite R.
    rewrite Rw. unfold cleanupOldSessions. cbn. rewrite run_bind.
    fold q now. fold (selected_for_cleanup now q (_sessions w)).
    rewrite Ids.
    pose proof (run_for_each_closeSession_calls env chosen (tick w)) as Hc.
    destruct (run env (for_each (map fst chosen) closeSession) (tick w))
      as [w'' [[]|e]] eqn:Rf; cbn in Hc |- *.
    + apply Hc.
      * now apply filter_nodup_keys.
      * intros k s Hin. apply filter_In in Hin as [Hin _].
        now apply map_in_get.
    + apply Hc.
      * now apply filter_nodup_keys.
      * intros k s Hin. apply filter_In in Hin as [Hin _].
        now apply map_in_get.
  - exact Idle.
  - intros id s G Hne. rewrite Kept.
    apply map_in_get.
    + now apply filter_nodup_keys.
    + apply filter_In. split; [now apply map_get_in|].
      cbn. unfold expired. apply negb_true_iff.
      apply andb_false_iff. left. now apply Z.eqb_neq.
Qed.

(** With no threshold given the threshold is 60 minutes: a session is
    selected when its count is 0 and more than 3 600 000 ms have passed
    since it was last accessed.  (The quotient of the source is a double;
    it exceeds 60 exactly when the difference of the two integer time
    stamps exceeds 3 600 000, as on rationals.) *)
Lemma expired_default now s :
  expired now 60%Q s = true
  <-> refCount s = 0 /\ 3600000 < now - lastAccessedAt s.
Proof.
  unfold expired, ageMinutes, Qle_bool, Qdiv, Qmult, Qinv, inject_Z. cbn.
  rewrite andb_true_iff, negb_true_iff, Z.eqb_eq, Z.leb_gt. lia.
Qed.

(** X8.  [cleanupOldSessions] with the threshold 0, or with the threshold
    60 (the one it takes when none is given), on a map with one entry per
    key.  With [limit] 0 or 3 600 000 ms accordingly, the sessions it
    selects are those whose [refCount] is 0 and that were last accessed
    more than [limit] before the time the call reads.  It raises nothing,
    keeps exactly the other entries, in their order, calls the [close]
    callback of each selected session once, in map order, and returns the
    number of those calls, whatever their outcomes. *)
Theorem cleanupOldSessions_accounting env w maxAgeMinutes limit :
  one_entry_per_key w ->
  (maxAgeMinutes = Some 0%Q /\ limit = 0) \/
  ((maxAgeMinutes = None \/ maxAgeMinutes = Some 60%Q) /\ limit = 3600000) ->
  let now := clock env (ticks w) in
  let old (e : string * ManagedSession) :=
    ((refCount (snd e) =? 0)
     && (limit <? now - lastAccessedAt (snd e)))%Z in
  let chosen := filter old (_sessions w) in
  exists w',
    run env (cleanupOldSessions maxAgeMinutes) w
    = (w', inl (List.length chosen)) /\
    _sessions w' = filter (fun e => negb (old e)) (_sessions w) /\
    calls w'
    = (calls w ++ map (fun e => CallClose (close (snd e))) chosen)%list /\
    listeners w' = listeners w.
Proof.
  intros Hnd Hq now old chosen.
  destruct (run_cleanupOldSessions_selected env w maxAgeMinutes Hnd)
    as (w' & R & K & C & L & _).
  fold now in R, K, C.
  set (q := match maxAgeMinutes with Some m => m | None => 60%Q end) in *.
  assert (Same : forall e, expired now q (snd e) = old e).
  { intros e. apply eq_true_iff_eq. unfold old.
    rewrite andb_true_iff, Z.eqb_eq, Z.ltb_lt.
    destruct Hq as [[-> ->]|[[->| ->] ->]]; subst q.
    - rewrite expired_zero. lia.
    - rewrite expired_default. lia.
    - rewrite expired_default. lia. }
  assert (Chosen : filter (fun e => expired now q (snd e)) (_sessions w)
                   = chosen)
    by (apply filter_ext; exact Same).
  assert (Kept : filter (fun e => negb (expired now q (snd e))) (_sessions w)
                 = filter (fun e => negb (old e)) (_sessions w))
    by (apply filter_ext; intros e; now rewrite Same).
  rewrite Chosen in R, C. rewrite Kept in K.
  exists w'. auto.
Qed.

Lemma cleanupOldSessions_accounting_witness :
  one_entry_per_key idle_default /\
  exists w',
    run later_env (cleanupOldSessions (Some 0%Q)) idle_default
    = (w', inl 1%nat) /\
    _sessions w' = [] /\
    calls w' = (calls idle_default ++ [CallClose 0%nat])%list.
Proof.
  assert (Hnd : one_entry_per_key idle_default)
    by (repeat constructor; cbn; tauto).
  split; [exact Hnd|].
  destruct (cleanupOldSessions_accounting later_env idle_default
              (Some 0%Q) 0 Hnd (or_introl (conj eq_refl eq_refl)))
    as (w' & R & K & C & _).
  exists w'. split; [exact R|]. split; [exact K | exact C].
Defined.

(** X9.  [cleanupOldSessions()] with its default threshold, on a map with
    one entry per key: the sessions removed are exactly those whose
    [refCount] is 0 and that were last accessed more than 3 600 000 ms (60
    minutes) before the time the call reads; a session used within the last
    60 minutes, or with a [refCount] other than 0, stays as it is. *)
Theorem cleanup_default_is_sixty_minutes env w :
  one_entry_per_key w ->
  let now := clock env (ticks w) in
  exists w' n,
    run env (cleanupOldSessions None) w = (w', inl n) /\
    (forall id s,
       map_get id (_sessions w) = Some s ->
       refCount s = 0 -> 3600000 < now - lastAccessedAt s ->
       map_get id (_sessions w') = None) /\
    (forall id s,
       map_get id (_sessions w) = Some s ->
       refCount s <> 0 \/ now - lastAccessedAt s <= 3600000 ->
       map_get id (_sessions w') = Some s).
Proof.
  intros Hnd now.
  destruct (run_cleanupOldSessions env w None) as (w' & R & E & _).
  cbv zeta iota in R, E. fold now in R, E.
  do 2 eexists. split; [exact R|]. split.
  - intros id s G H0 Hold. rewrite E. apply map_get_delete_all_in.
    apply (selected_for_cleanup_in now 60%Q _ id s Hnd G).
    now apply expired_default.
  - intros id s G Hkeep. rewrite E.
    rewrite map_get_delete_all_out; [exact G|].
    intros Hin. apply (selected_for_cleanup_in now 60%Q _ id s Hnd G) in Hin.
    apply expired_default in Hin. lia.
Qed.

Lemma cleanup_default_is_sixty_minutes_witness :
  one_entry_per_key idle_default /\
  exists w' n,
    run later_env (cleanupOldSessions None) idle_default = (w', inl n) /\
    map_get "default" (_sessions w')
    = Some (mkSession 0%nat 0%nat 0 "default" 5000 5000).
Proof.
  assert (Hnd : one_entry_per_key idle_default)
    by (repeat constructor; cbn; tauto).
  split; [exact Hnd|].
  destruct (cleanup_default_is_sixty_minutes later_env idle_default Hnd)
    as (w' & n & R & _ & Keep).
  exists w', n. split; [exact R|].
  apply Keep; [reflexivity|]. right. cbn. lia.
Defined.

(* ------------------------------------------------------------------ *)
(** ** The session tools *)

Lemma run_try_catch {A} env (p : prog A) (h : Error -> prog A) w :
  run env (try_catch p h) w
  = match run env p w with
    | (w', inl a) => (w', inl a)
    | (w', inr e) => run env (h e) w'
    end.
Proof.
  revert w. induction p as [a|e|X f k IH|k IH|X c k IH|X cs k IH];
    intros w; cbn; auto.
Qed.

Lemma run_sessionCleanup_handle env js params response w :
  let q := or_60 match params with Some m => m | None => 60%Q end in
  exists w' n,
    run env (cleanupOldSessions (Some q)) w = (w', inl n) /\
    exists added,
      run env (sessionCleanup_handle js params response) w
      = (w', inl ((response ++ added)%list, inl tt)) /\
      In (AddResult ("Max age: " ++ String_of_number js q ++ " minutes"))
         added.
Proof.
  intros q.
  destruct (run_cleanupOldSessions env w (Some q)) as (w' & R & _).
  do 2 eexists. split; [exact R|].
  unfold sessionCleanup_handle. fold q.
  rewrite run_try_catch, run_bind, R. cbn.
  destruct (map_keys (_sessions w')) as [|k ks]; eexists.
  - rewrite <- !app_assoc. split; [destruct w'; reflexivity|].
    cbn. auto.
  - rewrite <- !app_assoc. split; [destruct w'; reflexivity|].
    cbn. auto.
Qed.

(** X10.  [browser_session_cleanup] called with [maxAgeMinutes] 0 does
    what it does with no [maxAgeMinutes] at all: the 0 is replaced by 60
    before the factory is called.  The handler does not throw, reports
    [Max age: 60 minutes] (60 as the number is printed), and on a map with
    one entry per key every session that was accessed within the last
    3 600 000 ms is still in the map afterwards, idle or not. *)
Theorem sessionCleanup_zero_means_sixty env js response w :
  one_entry_per_key w ->
  exists w' added,
    run env (sessionCleanup_handle js (Some 0%Q) response) w
    = (w', inl ((response ++ added)%list, inl tt)) /\
    run env (sessionCleanup_handle js None response) w
    = (w', inl ((response ++ added)%list, inl tt)) /\
    In (AddResult ("Max age: " ++ String_of_number js 60%Q ++ " minutes"))
       added /\
    forall id s,
      map_get id (_sessions w) = Some s ->
      clock env (ticks w) - lastAccessedAt s <= 3600000 ->
      map_get id (_sessions w') = Some s.
Proof.
  intros Hnd.
  destruct (run_sessionCleanup_handle env js (Some 0%Q) response w)
    as (w' & n & R & added & H & L).
  change (or_60 0%Q) with 60%Q in *.
  exists w', added. split; [exact H|]. split; [exact H|].
  split; [exact L|].
  intros id s G Hrecent.
  destruct (run_cleanupOldSessions env w (Some 60%Q)) as (w'' & R' & E & _).
  rewrite R in R'. injection R' as <- _. cbv zeta iota in E. rewrite E.
  rewrite map_get_delete_all_out; [exact G|].
  intros Hin.
  apply (selected_for_cleanup_in _ 60%Q _ id s Hnd G) in Hin.
  apply expired_default in Hin. lia.
Qed.

Lemma sessionCleanup_zero_means_sixty_witness :
  one_entry_per_key idle_default /\
  exists w' added,
    run later_env (sessionCleanup_handle plain_js (Some 0%Q) []) idle_default
    = (w', inl (added, inl tt)) /\
    map_get "default" (_sessions w')
    = Some (mkSession 0%nat 0%nat 0 "default" 5000 5000).
Proof.
  assert (Hnd : one_entry_per_key idle_default)
    by (repeat constructor; cbn; tauto).
  split; [exact Hnd|].
  destruct (sessionCleanup_zero_means_sixty later_env plain_js []
              idle_default Hnd)
    as (w' & added & R & _ & _ & Keep).
  exists w', added. split; [exact R|].
  apply Keep; [reflexivity|]. cbn. lia.
Defined.

(** X11.  [browser_session_close] does not read [force]: whatever it is,
    the handler does the same.  It never throws.  A session that exists is
    removed and its [close] callback is called whatever its [refCount]; the
    handler then reports a successful close if the teardown succeeded, and
    [Session not found or already closed] if the teardown failed, as it
    does when there was no session. *)
Theorem sessionClose_ignores_force env js id force response w :
  exists w' added,
    run env (sessionClose_handle js id force response) w
    = (w', inl ((response ++ added)%list, inl tt)) /\
    (forall force',
       run env (sessionClose_handle js id force' response) w
       = (w', inl ((response ++ added)%list, inl tt))) /\
    match map_get id (_sessions w) with
    | Some s =>
        map_get id (_sessions w') = None /\
        calls w' = (calls w ++ [CallClose (close s)])%list /\
        hd_error added
        = Some match teardown env (List.length (calls w)) (close s) with
               | inl _ => AddResult " Browser session closed successfully!"
               | inr _ =>
                   AddResult (" Session not found or already closed: " ++ id)
               end
    | None =>
        w' = w /\
        hd_error added
        = Some (AddResult (" Session not found or already closed: " ++ id))
    end.
Proof.
  unfold sessionClose_handle.
  destruct (map_get id (_sessions w)) as [s|] eqn:G.
  - destruct (teardown env (List.length (calls w)) (close s)) eqn:T.
    + do 2 eexists. split; [|split].
      * rewrite run_try_catch, run_bind,
          (run_closeSession_present env w id s G), T. cbn.
        rewrite <- app_assoc. reflexivity.
      * intros force'. rewrite run_try_catch, run_bind,
          (run_closeSession_present env w id s G), T. cbn.
        rewrite <- app_assoc. reflexivity.
      * cbn. split; [apply map_get_delete_same|]. auto.
    + do 2 eexists. split; [|split].
      * rewrite run_try_catch, run_bind,
          (run_closeSession_present env w id s G), T. cbn.
        rewrite <- app_assoc. reflexivity.
      * intros force'. rewrite run_try_catch, run_bind,
          (run_closeSession_present env w id s G), T. cbn.
        rewrite <- app_assoc. reflexivity.
      * cbn. split; [apply map_get_delete_same|]. auto.
  - do 2 eexists. split; [|split].
    + rewrite run_try_catch, run_bind,
        (run_closeSession_absent env w id G). cbn.
      rewrite <- app_assoc. reflexivity.
    + intros force'. rewrite run_try_catch, run_bind,
        (run_closeSession_absent env w id G). cbn.
      rewrite <- app_assoc. reflexivity.
    + cbn. auto.
Qed.

(** X12.  [browser_session_create].  When the identifier has no session
    and the wrapped factory fails with [error], the handler adds the line
    [Failed to create session: ] followed by the error, throws that same
    [error], and the map is as before.  When the identifier already has a
    session, the handler reports a created session all the same, makes no
    provisioning call, and the session's [refCount] has grown by one. *)
Theorem sessionCreate_outcomes env js probe id ci response w :
  match map_get id (_sessions w) with
  | None =>
      forall error,
        provision env (List.length (calls w)) ci = inr error ->
        run env (sessionCreate_handle js probe id ci response) w
        = (log_calls [CallCreateContext ci] w,
           inl ((response
                 ++ [AddResult (" Failed to create session: "
                                ++ String_of_error js error)])%list,
                inr error))
  | Some s =>
      exists w' added,
        run env (sessionCreate_handle js probe id ci response) w
        = (w', inl ((response ++ added)%list, inl tt)) /\
        hd_error added
        = Some (AddResult " Browser session created successfully!") /\
        calls w' = calls w /\
        option_map refCount (map_get id (_sessions w'))
        = Some (refCount s + 1)
  end.
Proof.
  unfold sessionCreate_handle.
  destruct (map_get id (_sessions w)) as [s|] eqn:G.
  - do 2 eexists. split; [|split; [|split]].
    + rewrite run_try_catch, run_bind,
        (run_getOrCreateSession_existing env w id ci s G). cbn.
      reflexivity.
    + reflexivity.
    + reflexivity.
    + cbn. now rewrite map_get_assign_same, G.
  - intros error P.
    rewrite run_try_catch, run_bind,
      (run_getOrCreateSession_failed env w id ci error G P).
    reflexivity.
Qed.

(** X13.  The two read-only tools, [browser_session_info] and
    [browser_session_list], leave the factory exactly as it is and do not
    fail; each keeps what the response already held and adds to it.  The
    list tool adds one line per identifier of [listSessions], and marks an
    identifier as current exactly when it is ['default']. *)
Theorem readonly_tools_leave_factory env js probe response w :
  (exists added,
     run env (sessionInfo_handle js probe response) w
     = (w, inl (response ++ added)%list)) /\
  (exists added,
     run env (sessionList_handle js response) w
     = (w, inl (response ++ added)%list) /\
     forall id,
       In id (map_keys (_sessions w)) ->
       In (AddResult ("- " ++ id
                      ++ if String.eqb id "default" then " (CURRENT)"
                         else EmptyString)) added).
Proof.
  split.
  - unfold sessionInfo_handle. cbn.
    destruct (map (session_info probe) (_sessions w)) as [|i rest];
      eexists; rewrite <- !app_assoc; destruct w; reflexivity.
  - unfold sessionList_handle. cbn.
    destruct (map_keys (_sessions w)) as [|k ks] eqn:K.
    + eexists. split; [rewrite <- !app_assoc; destruct w; reflexivity|].
      intros id [].
    + eexists. split; [rewrite <- !app_assoc; destruct w; reflexivity|].
      intros id Hin.
      pose proof (in_map (fun sessionId =>
                            AddResult ("- " ++ sessionId
                                       ++ current_mark sessionId "default"))
                         _ id Hin) as H.
      rewrite ?in_app_iff. cbn [In]. rewrite ?in_app_iff. tauto.
Qed.

(* ------------------------------------------------------------------ *)
(** ** Persistence across calls *)

(** X14.  Two [getOrCreateSession] calls for an identifier that had no
    session, the first of which provisions successfully: both return the
    same browser context, the wrapped factory is called once, and the one
    session stored under the identifier has [refCount] 2, was created at
    the first call and last accessed at the second. *)
Theorem getOrCreateSession_twice env w id ci ci' bc cl :
  map_get id (_sessions w) = None ->
  provision env (List.length (calls w)) ci = inl (bc, cl) ->
  exists w1 w2,
    run env (getOrCreateSession id ci) w = (w1, inl bc) /\
    run env (getOrCreateSession id ci') w1 = (w2, inl bc) /\
    calls w2 = (calls w ++ [CallCreateContext ci])%list /\
    map_get id (_sessions w2)
    = Some (mkSession bc cl 2 id (clock env (ticks w))
                      (clock env (S (S (S (ticks w)))))) /\
    map_keys (_sessions w2) = (map_keys (_sessions w) ++ [id])%list.
Proof.
  intros G P.
  set (w1 := provisioned env w id ci bc cl).
  pose proof (provisioned_session env w id ci bc cl) as G1. fold w1 in G1.
  exists w1. eexists.
  split; [now apply run_getOrCreateSession_fresh|].
  split; [apply (run_getOrCreateSession_existing env w1 id ci' _ G1)|].
  cbn -[w1]. split; [reflexivity|]. split.
  - rewrite map_get_assign_same, G1. reflexivity.
  - rewrite map_keys_assign. now apply map_keys_provisioned.
Qed.

Lemma getOrCreateSession_twice_witness :
  map_get "x" (_sessions (new_factory None)) = None /\
  provision still_env (List.length (calls (new_factory None))) a_client
  = inl (0%nat, 0%nat) /\
  exists w1 w2,
    run still_env (getOrCreateSession "x" a_client) (new_factory None)
    = (w1, inl 0%nat) /\
    run still_env (getOrCreateSession "x" a_client) w1 = (w2, inl 0%nat) /\
    calls w2 = [CallCreateContext a_client] /\
    map_get "x" (_sessions w2)
    = Some (mkSession 0%nat 0%nat 2 "x" 5000 5000) /\
    map_keys (_sessions w2) = ["x"].
Proof.
  split; [reflexivity|]. split; [reflexivity|].
  exact (getOrCreateSession_twice still_env (new_factory None) "x"
           a_client a_client 0%nat 0%nat eq_refl eq_refl).
Defined.
